(** * Contacts API: a shallow embedding of [app/main.py]

    The program is a FastAPI application over two SQL tables ([user] and
    [contacts]).  The embedding keeps its three layers apart:

    - the tables and the session operations the handlers call
      ([query]/[filter]/[offset]/[limit]/[first]/[all], [add], [delete],
      [commit], [refresh]);
    - the handlers of [main.py], written in a state-and-exception monad over
      the database;
    - the routing layer: bearer-token resolution of the current user and the
      [response_model] through which every returned object is serialized. *)

From Stdlib Require Import ZArith List String Ascii Bool Lia.
From Stdlib.Strings Require Import Byte.
From Stdlib Require Import DecimalString.
Import ListNotations.

Local Open Scope string_scope.
Local Open Scope list_scope.
Local Open Scope Z_scope.

Set Implicit Arguments.
Set Warnings "-register-all".

(** ** Exceptions and results *)

Inductive exn : Type :=
| HTTPException (status_code : Z) (detail : string)
| IntegrityError
| InvalidRequestError
| StatementError
| KeyError (key : string)
| TypeError
| UploadError.

Inductive result (A : Type) : Type :=
| Ok (a : A)
| Raise (e : exn).

Arguments Ok {A} a.
Arguments Raise {A} e.

Definition result_bind {A B} (r : result A) (k : A -> result B) : result B :=
  match r with
  | Ok a => k a
  | Raise e => Raise e
  end.

Notation "x <-- r ;; k" := (result_bind r (fun x => k))
  (at level 61, r at next level, right associativity).

(** ** Dates

    [datetime.datetime] (the type of [ContactCreate.birthday]) and
    [datetime.date] (what a [Date] column holds). *)

Record date : Type := mkdate { year : Z; month : Z; day : Z }.

Record datetime : Type := mkdatetime {
  dt_date : date;
  hour : Z;
  minute : Z;
  second : Z;
  microsecond : Z;
  utcoffset : option Z
}.

(** [datetime.date()] *)
Definition datetime_date (dt : datetime) : date := dt_date dt.

(** A [date] read into a [datetime] field: midnight, no zone. *)
Definition datetime_of_date (d : date) : datetime :=
  mkdatetime d 0 0 0 0 None.

(** ** Python values, as they appear in [.dict()] and in [setattr] *)

Inductive value : Type :=
| VNone
| VInt (z : Z)
| VStr (s : string)
| VDate (d : date)
| VDateTime (dt : datetime).

Definition dict : Type := list (string * value).

Definition of_optional (o : option string) : value :=
  match o with
  | Some s => VStr s
  | None => VNone
  end.

Fixpoint lookup (key : string) (d : dict) : option value :=
  match d with
  | [] => None
  | (k, v) :: d' => if String.eqb key k then Some v else lookup key d'
  end.

(** What a column of each type takes from a Python value.  A [Date] column
    keeps the calendar date of a datetime; a value the column's type does not
    admit is refused when the row is written. *)
Definition as_integer (v : value) : result Z :=
  match v with
  | VInt z => Ok z
  | _ => Raise StatementError
  end.

Definition as_string (v : value) : result string :=
  match v with
  | VStr s => Ok s
  | _ => Raise StatementError
  end.

Definition as_nullable_string (v : value) : result (option string) :=
  match v with
  | VStr s => Ok (Some s)
  | VNone => Ok None
  | _ => Raise StatementError
  end.

Definition as_date (v : value) : result date :=
  match v with
  | VDate d => Ok d
  | VDateTime dt => Ok (datetime_date dt)
  | _ => Raise StatementError
  end.

Definition required (key : string) (kwargs : dict) : result value :=
  match lookup key kwargs with
  | Some v => Ok v
  | None => Raise StatementError
  end.

(** ** JSON, the body of a response.  A datetime travels as its ISO 8601
    text; the leaf keeps it structured. *)

Inductive json : Type :=
| JNull
| JNum (z : Z)
| JStr (s : string)
| JDateTime (dt : datetime)
| JArr (items : list json)
| JObj (members : list (string * json)).

(** Does the key [k] name a member of an object anywhere inside [j]? *)
Fixpoint has_key (k : string) (j : json) : bool :=
  match j with
  | JArr items =>
      (fix any (l : list json) : bool :=
         match l with
         | [] => false
         | x :: l' => has_key k x || any l'
         end) items
  | JObj members =>
      (fix any (l : list (string * json)) : bool :=
         match l with
         | [] => false
         | (k', x) :: l' => String.eqb k k' || has_key k x || any l'
         end) members
  | _ => false
  end.

Definition json_optional (o : option string) : json :=
  match o with
  | Some s => JStr s
  | None => JNull
  end.

(** ** The data model *)

(** class Contact(Base): one row of [contacts].  [additional_info] is the
    column declared [nullable=True] and [birthday] is a [Date] column.  Rows
    are written by [create_contact] and [update_contact] only, from payloads
    that [ContactCreate] has validated, so the other columns always hold a
    value and are typed accordingly. *)
Module Contact.

Record t : Type := mk {
  id : Z;
  first_name : string;
  last_name : string;
  email : string;
  phone_number : string;
  birthday : date;
  additional_info : option string;
  owner_id : Z
}.

(** The constructor [Contact] called with keyword arguments, once the INSERT
    has given the object its key [pk]: every column takes the keyword of its
    name.  A column that must hold a value and is given none makes the
    statement fail. *)
Definition init (pk : Z) (kwargs : dict) : result t :=
  fn <-- result_bind (required "first_name" kwargs) as_string ;;
  ln <-- result_bind (required "last_name" kwargs) as_string ;;
  em <-- result_bind (required "email" kwargs) as_string ;;
  ph <-- result_bind (required "phone_number" kwargs) as_string ;;
  bd <-- result_bind (required "birthday" kwargs) as_date ;;
  ai <-- match lookup "additional_info" kwargs with
         | Some v => as_nullable_string v
         | None => Ok None
         end ;;
  ow <-- result_bind (required "owner_id" kwargs) as_integer ;;
  Ok (mk pk fn ln em ph bd ai ow).

(** [setattr(obj, key, value)] on a mapped instance.  A name that is no
    column is an ordinary attribute of the Python object and never reaches
    the row. *)
Definition setattr (c : t) (key : string) (v : value) : result t :=
  if String.eqb key "id" then
    z <-- as_integer v ;;
    Ok (mk z (first_name c) (last_name c) (email c) (phone_number c)
           (birthday c) (additional_info c) (owner_id c))
  else if String.eqb key "first_name" then
    s <-- as_string v ;;
    Ok (mk (id c) s (last_name c) (email c) (phone_number c)
           (birthday c) (additional_info c) (owner_id c))
  else if String.eqb key "last_name" then
    s <-- as_string v ;;
    Ok (mk (id c) (first_name c) s (email c) (phone_number c)
           (birthday c) (additional_info c) (owner_id c))
  else if String.eqb key "email" then
    s <-- as_string v ;;
    Ok (mk (id c) (first_name c) (last_name c) s (phone_number c)
           (birthday c) (additional_info c) (owner_id c))
  else if String.eqb key "phone_number" then
    s <-- as_string v ;;
    Ok (mk (id c) (first_name c) (last_name c) (email c) s
           (birthday c) (additional_info c) (owner_id c))
  else if String.eqb key "birthday" then
    d <-- as_date v ;;
    Ok (mk (id c) (first_name c) (last_name c) (email c) (phone_number c)
           d (additional_info c) (owner_id c))
  else if String.eqb key "additional_info" then
    o <-- as_nullable_string v ;;
    Ok (mk (id c) (first_name c) (last_name c) (email c) (phone_number c)
           (birthday c) o (owner_id c))
  else if String.eqb key "owner_id" then
    z <-- as_integer v ;;
    Ok (mk (id c) (first_name c) (last_name c) (email c) (phone_number c)
           (birthday c) (additional_info c) z)
  else Ok c.

End Contact.

(** class ContactCreate(BaseModel) *)
Module ContactCreate.

Record t : Type := mk {
  first_name : string;
  last_name : string;
  email : string;
  phone_number : string;
  birthday : datetime;
  additional_info : option string
}.

(** [contact.dict()]: the fields in declaration order. *)
Definition dict (x : t) : dict :=
  [ ("first_name", VStr (first_name x));
    ("last_name", VStr (last_name x));
    ("email", VStr (email x));
    ("phone_number", VStr (phone_number x));
    ("birthday", VDateTime (birthday x));
    ("additional_info", of_optional (additional_info x)) ].

(** The model used as a [response_model]: it is filled from the attributes
    of the returned object that carry the names of its fields. *)
Definition from_orm (c : Contact.t) : t :=
  mk (Contact.first_name c) (Contact.last_name c) (Contact.email c)
     (Contact.phone_number c) (datetime_of_date (Contact.birthday c))
     (Contact.additional_info c).

Definition to_json (x : t) : json :=
  JObj [ ("first_name", JStr (first_name x));
         ("last_name", JStr (last_name x));
         ("email", JStr (email x));
         ("phone_number", JStr (phone_number x));
         ("birthday", JDateTime (birthday x));
         ("additional_info", json_optional (additional_info x)) ].

End ContactCreate.

(** class ContactUpdate(ContactCreate): pass *)
Module ContactUpdate.

Definition t : Type := ContactCreate.t.

Definition dict : t -> dict := ContactCreate.dict.

End ContactUpdate.

(** Modelled from the spec: the columns of the [user] table.  [UserTable]
    declares none of its own in [main.py]; the spec's data model gives a
    user an integer identifier, a unique required email, a hashed password,
    the active and superuser flags and an optional avatar URL. *)
Module UserDB.

Record t : Type := mk {
  id : Z;
  email : string;
  hashed_password : string;
  is_active : bool;
  is_superuser : bool;
  avatar : option string
}.

(** [user.avatar = value] *)
Definition set_avatar (u : t) (url : option string) : t :=
  mk (id u) (email u) (hashed_password u) (is_active u) (is_superuser u) url.

End UserDB.

(** class UserCreate(BaseModel) *)
Module UserCreate.

Record t : Type := mk {
  email : string;
  password : string
}.

End UserCreate.

(** class UserRead(BaseModel), with [orm_mode = True] *)
Module UserRead.

Record t : Type := mk {
  id : Z;
  email : string;
  avatar : option string
}.

Definition from_orm (u : UserDB.t) : t :=
  mk (UserDB.id u) (UserDB.email u) (UserDB.avatar u).

Definition to_json (x : t) : json :=
  JObj [ ("id", JNum (id x));
         ("email", JStr (email x));
         ("avatar", json_optional (avatar x)) ].

End UserRead.

(** ** The database

    Two tables, each with the sequence that gives its next primary key.  A
    table keeps its rows in the order they were inserted, an UPDATE changes a
    row in place, and a SELECT without ORDER BY, the only kind [main.py]
    issues, is taken to scan the rows in that order. *)

Record Db : Type := mkDb {
  users : list UserDB.t;
  users_seq : Z;
  contacts : list Contact.t;
  contacts_seq : Z
}.

Definition set_contacts (db : Db) (rows : list Contact.t) : Db :=
  mkDb (users db) (users_seq db) rows (contacts_seq db).

Definition set_users (db : Db) (rows : list UserDB.t) : Db :=
  mkDb rows (users_seq db) (contacts db) (contacts_seq db).

(** INSERT INTO contacts: the key comes from the sequence; the primary key
    and the foreign key [owner_id -> user.id] are checked. *)
Definition insert_contact (kwargs : dict) (db : Db) : result (Contact.t * Db) :=
  let pk := contacts_seq db in
  row <-- Contact.init pk kwargs ;;
  if existsb (fun r => Contact.id r =? pk) (contacts db) then Raise IntegrityError
  else if negb (existsb (fun u => UserDB.id u =? Contact.owner_id row) (users db))
  then Raise IntegrityError
  else Ok (row, mkDb (users db) (users_seq db) (contacts db ++ [row]) (pk + 1)).

(** UPDATE contacts SET ... WHERE id = pk *)
Definition update_row (pk : Z) (row : Contact.t) (rows : list Contact.t) : list Contact.t :=
  map (fun r => if Contact.id r =? pk then row else r) rows.

(** DELETE FROM contacts WHERE id = pk *)
Definition delete_row (pk : Z) (rows : list Contact.t) : list Contact.t :=
  filter (fun r => negb (Contact.id r =? pk)) rows.

(** SELECT ... WHERE id = pk *)
Definition get_row (pk : Z) (rows : list Contact.t) : option Contact.t :=
  find (fun r => Contact.id r =? pk) rows.

(** ** The session

    A session works on its own copy of the data; [commit] makes the copy
    the stored state, and a session that ends without one leaves no trace. *)

Record Session : Type := mkSession {
  committed : Db;
  working : Db
}.

Definition M (A : Type) : Type := Session -> result A * Session.

Definition ret {A} (a : A) : M A := fun s => (Ok a, s).

Definition raise {A} (e : exn) : M A := fun s => (Raise e, s).

Definition bind {A B} (m : M A) (k : A -> M B) : M B :=
  fun s =>
    match m s with
    | (Ok a, s') => k a s'
    | (Raise e, s') => (Raise e, s')
    end.

Notation "x <- m ; k" := (bind m (fun x => k))
  (at level 61, m at next level, right associativity).

Notation "m ;; k" := (bind m (fun _ => k))
  (at level 61, right associativity).

(** [for x in xs: obj = body(obj, x)] *)
Fixpoint for_each {A B} (xs : list A) (obj : B) (body : B -> A -> M B) : M B :=
  match xs with
  | [] => ret obj
  | x :: xs' => obj' <- body obj x ; for_each xs' obj' body
  end.

(** A request runs in a session of its own, opened on the stored state. *)
Definition run {A} (m : M A) (db : Db) : result A * Db :=
  let (r, s) := m (mkSession db db) in (r, committed s).

(** A SELECT on [contacts] under construction. *)
Module Query.

Definition t : Type := list Contact.t -> result (list Contact.t).

Definition filter (p : Contact.t -> bool) (q : t) : t :=
  fun rows => l <-- q rows ;; Ok (List.filter p l).

(** OFFSET and LIMIT.  The handler hands the numbers to the engine as they
    come: a negative OFFSET skips nothing and a negative LIMIT limits
    nothing. *)
Definition offset (n : Z) (q : t) : t :=
  fun rows =>
    l <-- q rows ;;
    if n <? 0 then Ok l else Ok (skipn (Z.to_nat n) l).

Definition limit (n : Z) (q : t) : t :=
  fun rows =>
    l <-- q rows ;;
    if n <? 0 then Ok l else Ok (firstn (Z.to_nat n) l).

End Query.

Module Session.

(** [db.query(Contact)] *)
Definition query_Contact : Query.t := fun rows => Ok rows.

Definition all (q : Query.t) : M (list Contact.t) :=
  fun s =>
    match q (contacts (working s)) with
    | Ok l => (Ok l, s)
    | Raise e => (Raise e, s)
    end.

Definition first (q : Query.t) : M (option Contact.t) :=
  fun s =>
    match q (contacts (working s)) with
    | Ok l => (Ok (hd_error l), s)
    | Raise e => (Raise e, s)
    end.

(** [db.add(obj)] of a new [Contact]; the object returned carries its key. *)
Definition add (kwargs : dict) : M Contact.t :=
  fun s =>
    match insert_contact kwargs (working s) with
    | Ok (row, db') => (Ok row, mkSession (committed s) db')
    | Raise e => (Raise e, s)
    end.

(** [setattr(obj, key, value)] on an object of the session: the row of its
    key follows the object. *)
Definition setattr (obj : Contact.t) (key : string) (v : value) : M Contact.t :=
  fun s =>
    match Contact.setattr obj key v with
    | Ok obj' =>
        (Ok obj',
         mkSession (committed s)
           (set_contacts (working s)
              (update_row (Contact.id obj) obj' (contacts (working s)))))
    | Raise e => (Raise e, s)
    end.

(** [db.delete(obj)] *)
Definition delete (obj : Contact.t) : M unit :=
  fun s =>
    (Ok tt,
     mkSession (committed s)
       (set_contacts (working s) (delete_row (Contact.id obj) (contacts (working s))))).

(** [db.commit()] *)
Definition commit : M unit :=
  fun s => (Ok tt, mkSession (working s) (working s)).

(** [db.refresh(obj)]: the object as its row now reads. *)
Definition refresh (obj : Contact.t) : M Contact.t :=
  fun s =>
    match get_row (Contact.id obj) (contacts (working s)) with
    | Some row => (Ok row, s)
    | None => (Raise InvalidRequestError, s)
    end.

End Session.

(** ** The contact handlers of [main.py] *)

Notation "q |> f" := (f q) (at level 50, left associativity, only parsing).

Definition not_found {A} : M A := raise (HTTPException 404 "Contact not found").

(** POST /contacts/ *)
Definition create_contact (contact : ContactCreate.t) (user : UserDB.t) : M Contact.t :=
  let kwargs :=
    (ContactCreate.dict contact ++ [("owner_id", VInt (UserDB.id user))]) in
  db_contact <- Session.add kwargs ;
  Session.commit ;;
  db_contact <- Session.refresh db_contact ;
  ret db_contact.

(** A parameter with a default value: [name: int = d]. *)
Definition defaulting (d : Z) (given : option Z) : Z :=
  match given with
  | Some z => z
  | None => d
  end.

(** GET /contacts/, with [skip: int = 0, limit: int = 10] *)
Definition read_contacts (skip limit : option Z) (user : UserDB.t) : M (list Contact.t) :=
  let skip := defaulting 0 skip in
  let limit := defaulting 10 limit in
  contacts <- (Session.query_Contact
               |> Query.filter (fun c => Contact.owner_id c =? UserDB.id user)
               |> Query.offset skip
               |> Query.limit limit
               |> Session.all) ;
  ret contacts.

(** The filter shared by the three handlers addressed by id:
    [Contact.id == contact_id, Contact.owner_id == user.id]. *)
Definition owned_with_id (contact_id : Z) (user : UserDB.t) (c : Contact.t) : bool :=
  (Contact.id c =? contact_id) && (Contact.owner_id c =? UserDB.id user).

(** GET /contacts/{contact_id} *)
Definition read_contact (contact_id : Z) (user : UserDB.t) : M Contact.t :=
  contact <- (Session.query_Contact
              |> Query.filter (owned_with_id contact_id user)
              |> Session.first) ;
  match contact with
  | None => not_found
  | Some contact => ret contact
  end.

(** PUT /contacts/{contact_id} *)
Definition update_contact (contact_id : Z) (contact : ContactUpdate.t) (user : UserDB.t)
  : M Contact.t :=
  db_contact <- (Session.query_Contact
                 |> Query.filter (owned_with_id contact_id user)
                 |> Session.first) ;
  match db_contact with
  | None => not_found
  | Some db_contact =>
      db_contact <- for_each (ContactUpdate.dict contact) db_contact
                      (fun obj item => Session.setattr obj (fst item) (snd item)) ;
      Session.commit ;;
      db_contact <- Session.refresh db_contact ;
      ret db_contact
  end.

(** DELETE /contacts/{contact_id} *)
Definition delete_contact (contact_id : Z) (user : UserDB.t) : M Contact.t :=
  db_contact <- (Session.query_Contact
                 |> Query.filter (owned_with_id contact_id user)
                 |> Session.first) ;
  match db_contact with
  | None => not_found
  | Some db_contact =>
      Session.delete db_contact ;;
      Session.commit ;;
      ret db_contact
  end.

(** ** Users: registration, tokens, the current user *)

(** Modelled from the spec: INSERT INTO user.  [UserTable] declares no
    column in [main.py]; the spec's data model makes the email unique, so the
    INSERT checks it beside the primary key, whose value comes from the
    sequence. *)
Definition insert_user (email hashed_password : string) (is_active is_superuser : bool)
  (db : Db) : result (UserDB.t * Db) :=
  let pk := users_seq db in
  let row := UserDB.mk pk email hashed_password is_active is_superuser None in
  if existsb (fun u => UserDB.id u =? pk) (users db) then Raise IntegrityError
  else if existsb (fun u => String.eqb (UserDB.email u) email) (users db)
  then Raise IntegrityError
  else Ok (row, mkDb (users db ++ [row]) (pk + 1) (contacts db) (contacts_seq db)).

(** UPDATE user SET ... WHERE id = pk *)
Definition update_user_row (pk : Z) (row : UserDB.t) (rows : list UserDB.t) : list UserDB.t :=
  map (fun r => if UserDB.id r =? pk then row else r) rows.

(** [try: m except exc: handler] *)
Definition try_except {A} (m : M A) (handler : exn -> option (M A)) : M A :=
  fun s =>
    match m s with
    | (Ok a, s') => (Ok a, s')
    | (Raise e, s') =>
        match handler e with
        | Some h => h s'
        | None => (Raise e, s')
        end
    end.

(** class JWTStrategy: the two settings [main.py] gives it. *)
Record JWTStrategy : Type := mkJWTStrategy {
  secret : string;
  lifetime_seconds : option Z
}.

(** A token: the subject, the expiry (seconds since the epoch) and the
    signature over both. *)
Record jwt : Type := mkjwt {
  sub : Z;
  exp : option Z;
  signature : string
}.

Record response : Type := mkresponse {
  status : Z;
  body : json
}.

(** The requests of the API.  [authorization] is the bearer token of the
    request, if it carries one.  Of the routes the library mounts under
    /users, which all answer with the user through [UserRead], GET /users/me
    is the one kept. *)
Inductive request : Type :=
| AuthRegister (user : UserCreate.t)
| AuthLogin (username password : string)
| UsersMe (authorization : option jwt)
| UploadAvatar (authorization : option jwt) (user_id : Z) (file : list byte)
| CreateContact (authorization : option jwt) (contact : ContactCreate.t)
| ReadContacts (authorization : option jwt) (skip limit : option Z)
| ReadContact (authorization : option jwt) (contact_id : Z)
| UpdateContact (authorization : option jwt) (contact_id : Z) (contact : ContactUpdate.t)
| DeleteContact (authorization : option jwt) (contact_id : Z).

(** [jsonable_encoder] on a plain value. *)
Definition encode_value (v : value) : json :=
  match v with
  | VNone => JNull
  | VInt z => JNum z
  | VStr s => JStr s
  | VDate d => JDateTime (datetime_of_date d)
  | VDateTime dt => JDateTime dt
  end.

Definition encode_dict (d : dict) : json :=
  JObj (map (fun kv => (fst kv, encode_value (snd kv))) d).

Definition encode_contact (c : Contact.t) : json :=
  ContactCreate.to_json (ContactCreate.from_orm c).

Definition encode_contacts (l : list Contact.t) : json :=
  JArr (map encode_contact l).

Definition encode_user (u : UserDB.t) : json :=
  UserRead.to_json (UserRead.from_orm u).

(** The token in a login response; its three parts are kept apart rather
    than packed into the compact text form. *)
Definition encode_token (t : jwt) : json :=
  JObj [ ("access_token",
          JArr [ JNum (sub t);
                 match exp t with Some e => JNum e | None => JNull end;
                 JStr (signature t) ]);
         ("token_type", JStr "bearer") ].

(** What the framework makes of a handler's outcome: the returned object
    through the response model, an [HTTPException] as its status and detail,
    anything else as a server error. *)
Definition respond {A} (success : Z) (encode : A -> json) (r : result A) : response :=
  match r with
  | Ok a => mkresponse success (encode a)
  | Raise (HTTPException status_code detail) =>
      mkresponse status_code (JObj [("detail", JStr detail)])
  | Raise _ => mkresponse 500 (JStr "Internal Server Error")
  end.

Definition endpoint {A} (success : Z) (encode : A -> json) (m : M A) (db : Db)
  : response * Db :=
  let (r, db') := run m db in (respond success encode r, db').

Section App.

(** Provided by the environment and by the libraries: the signing secret, the
    password hasher, the signature of a token's claims under a secret, and
    the image host. *)
Variable SECRET : string.
Variable password_helper_hash : string -> string.
Variable password_helper_verify : string -> string -> bool.
Variable sign : string -> Z -> option Z -> string.
Variable cloudinary_uploader_upload : list byte -> result dict.

(** def get_jwt_strategy() *)
Definition get_jwt_strategy : JWTStrategy :=
  mkJWTStrategy SECRET (Some 3600).

(** [BaseUserManager.validate_password(self, password, user)], which
    [UserManager] inherits unchanged: every password passes. *)
Definition validate_password (password : string) (user : UserCreate.t) : M unit :=
  ret tt.

(** A call that gives a method fewer arguments than it takes: Python raises
    TypeError before the body runs. *)
Definition missing_argument {A B} (method : A -> M B) : M B := raise TypeError.

(** Modelled from the spec: [self.user_db_model.create(db_user)] read as the
    INSERT of the new user and its commit, which is what the handler's
    [except IntegrityError] expects of it. *)
Definition user_db_create (email hashed_password : string) (is_active is_superuser : bool)
  : M UserDB.t :=
  fun s =>
    match insert_user email hashed_password is_active is_superuser (working s) with
    | Ok (row, db') => (Ok row, mkSession db' db')
    | Raise e => (Raise e, s)
    end.

(** UserManager.create.  Its first line, [self.validate_password(user.password)],
    leaves out the method's second argument. *)
Definition create (user : UserCreate.t) (safe : bool) : M UserDB.t :=
  missing_argument (validate_password (UserCreate.password user)) ;;
  let hashed_password := password_helper_hash (UserCreate.password user) in
  try_except
    (db_user <- user_db_create (UserCreate.email user) hashed_password true false ;
     ret db_user)
    (fun e =>
       match e with
       | IntegrityError =>
           Some (raise (HTTPException 409 "User with this email already exists"))
       | _ => None
       end).

(** Modelled from the spec: the token issued on login.  [JWTStrategy] is the
    library's; the spec says a signed token with a fixed lifetime is issued,
    so its expiry is the time of issue plus [lifetime_seconds]. *)
Definition write_token (strategy : JWTStrategy) (now : Z) (user : UserDB.t) : jwt :=
  let expiry := option_map (fun l => now + l) (lifetime_seconds strategy) in
  mkjwt (UserDB.id user) expiry (sign (secret strategy) (UserDB.id user) expiry).

(** Modelled from the spec: reading a token back.  The spec says the
    signature and the expiry are validated and the associated user returned;
    a token is expired once the current time has reached its expiry. *)
Definition read_token (strategy : JWTStrategy) (now : Z) (token : jwt) (rows : list UserDB.t)
  : option UserDB.t :=
  if negb (String.eqb (signature token) (sign (secret strategy) (sub token) (exp token)))
  then None
  else if match exp token with Some e => e <=? now | None => false end
  then None
  else find (fun u => UserDB.id u =? sub token) rows.

Definition unauthorized {A} : M A := raise (HTTPException 401 "Unauthorized").

(** Modelled from the spec: [fastapi_users.current_user], the dependency of
    every protected route.  The spec says it fails with Unauthorized when the
    token is missing, invalid or expired. *)
Definition current_user (now : Z) (authorization : option jwt) : M UserDB.t :=
  fun s =>
    match authorization with
    | None => unauthorized s
    | Some token =>
        match read_token get_jwt_strategy now token (users (working s)) with
        | Some user => (Ok user, s)
        | None => unauthorized s
        end
    end.

(** Modelled from the spec: a route behind the current-user dependency, as
    the spec describes it: the bearer token is resolved first and the
    handler runs for the user it names.  [main.py] writes
    [Depends(fastapi_users.current_user)], the factory itself, and builds the
    backend with [transport=None]; what the handlers do is stated below on the
    handlers, for the user they are given. *)
Definition protected {A} (now : Z) (authorization : option jwt) (handler : UserDB.t -> M A)
  : M A :=
  user <- current_user now authorization ;
  handler user.

(** Modelled from the spec: the login route of the library's auth router.
    The spec says it issues the token on success and fails with
    Unauthorized on bad credentials. *)
Definition login (now : Z) (username password : string) : M jwt :=
  fun s =>
    match find (fun u => String.eqb (UserDB.email u) username) (users (working s)) with
    | Some user =>
        if password_helper_verify password (UserDB.hashed_password user)
        then (Ok (write_token get_jwt_strategy now user), s)
        else unauthorized s
    | None => unauthorized s
    end.

(** POST /users/{user_id}/avatar/ .  The assignment [user.avatar = avatar_url]
    reaches the session's copy of the user; no commit follows.  A url that
    is no string stays on the Python object, which the row cannot show, and
    is returned as it came. *)
Definition upload_avatar (user_id : Z) (file : list byte) (user : UserDB.t) : M dict :=
  fun s =>
    match cloudinary_uploader_upload file with
    | Raise e => (Raise e, s)
    | Ok result =>
        match lookup "url" result with
        | None => (Raise (KeyError "url"), s)
        | Some avatar_url =>
            match as_nullable_string avatar_url with
            | Raise _ => (Ok [("avatar_url", avatar_url)], s)
            | Ok url =>
                let user' := UserDB.set_avatar user url in
                (Ok [("avatar_url", avatar_url)],
                 mkSession (committed s)
                   (set_users (working s)
                      (update_user_row (UserDB.id user) user' (users (working s)))))
            end
        end
    end.

(** ** The application: one request against the stored state

    Modelled from the spec: the routing of section 6, with the handlers of
    [main.py] behind it.  Of the routes the library mounts under /users only
    GET /users/me is here. *)
Definition app (now : Z) (req : request) (db : Db) : response * Db :=
  match req with
  | AuthRegister user =>
      endpoint 201 encode_user (create user true) db
  | AuthLogin username password =>
      endpoint 200 encode_token (login now username password) db
  | UsersMe authorization =>
      endpoint 200 encode_user (protected now authorization (fun user => ret user)) db
  | UploadAvatar authorization user_id file =>
      endpoint 200 encode_dict (protected now authorization (upload_avatar user_id file)) db
  | CreateContact authorization contact =>
      endpoint 200 encode_contact (protected now authorization (create_contact contact)) db
  | ReadContacts authorization skip limit =>
      endpoint 200 encode_contacts (protected now authorization (read_contacts skip limit)) db
  | ReadContact authorization contact_id =>
      endpoint 200 encode_contact (protected now authorization (read_contact contact_id)) db
  | UpdateContact authorization contact_id contact =>
      endpoint 200 encode_contact
        (protected now authorization (update_contact contact_id contact)) db
  | DeleteContact authorization contact_id =>
      endpoint 200 encode_contact (protected now authorization (delete_contact contact_id)) db
  end.

End App.

(** ** Integrity of the stored state *)

(** The primary key of [contacts]: no two rows share an id. *)
Definition contacts_primary_key (db : Db) : Prop :=
  NoDup (map Contact.id (contacts db)).

(** The sequence of [contacts] is ahead of every key in use. *)
Definition contacts_sequence_fresh (db : Db) : Prop :=
  Forall (fun c => Contact.id c < contacts_seq db) (contacts db).

(** The contacts a user owns, in table order. *)
Definition owned_by (user : UserDB.t) (db : Db) : list Contact.t :=
  filter (fun c => Contact.owner_id c =? UserDB.id user) (contacts db).

(** The row a full replacement by [fields] leaves in place of [c]. *)
Definition replaced (c : Contact.t) (fields : ContactUpdate.t) : Contact.t :=
  Contact.mk (Contact.id c)
    (ContactCreate.first_name fields) (ContactCreate.last_name fields)
    (ContactCreate.email fields) (ContactCreate.phone_number fields)
    (datetime_date (ContactCreate.birthday fields))
    (ContactCreate.additional_info fields)
    (Contact.owner_id c).

(** The row [create_contact] inserts for [fields] under the key [pk]. *)
Definition created (pk : Z) (fields : ContactCreate.t) (user : UserDB.t) : Contact.t :=
  Contact.mk pk
    (ContactCreate.first_name fields) (ContactCreate.last_name fields)
    (ContactCreate.email fields) (ContactCreate.phone_number fields)
    (datetime_date (ContactCreate.birthday fields))
    (ContactCreate.additional_info fields)
    (UserDB.id user).

(** The rows a run of [create_contacts] inserts, keyed from [pk] on. *)
Fixpoint created_from (pk : Z) (payloads : list ContactCreate.t) (user : UserDB.t)
  : list Contact.t :=
  match payloads with
  | [] => []
  | fields :: rest => created pk fields user :: created_from (pk + 1) rest user
  end.

(** One user creating contacts one request after another. *)
Fixpoint create_contacts (payloads : list ContactCreate.t) (user : UserDB.t) (db : Db)
  : result (list Contact.t) * Db :=
  match payloads with
  | [] => (Ok [], db)
  | fields :: rest =>
      match run (create_contact fields user) db with
      | (Ok c, db') =>
          match create_contacts rest user db' with
          | (Ok cs, db'') => (Ok (c :: cs), db'')
          | (Raise e, db'') => (Raise e, db'')
          end
      | (Raise e, db') => (Raise e, db')
      end
  end.

(** The values an [Integer] column holds, and the driver binds: signed,
    64 bits. *)
Definition int64 (z : Z) : Prop := - 2 ^ 63 <= z < 2 ^ 63.

Definition NotFound : exn := HTTPException 404 "Contact not found".

Definition Unauthorized : exn := HTTPException 401 "Unauthorized".

(** The claim on PUT as the spec words it, at one request: the record that
    comes back carries the values of the payload. *)
Definition update_returns_payload (db : Db) (user : UserDB.t) (contact_id : Z)
  (fields : ContactUpdate.t) : Prop :=
  exists c' db',
    run (update_contact contact_id fields user) db = (Ok c', db') /\
    ContactCreate.from_orm c' = fields.

(** The five routes under /contacts/. *)
Definition contact_route (req : request) : bool :=
  match req with
  | CreateContact _ _ => true
  | ReadContacts _ _ _ => true
  | ReadContact _ _ => true
  | UpdateContact _ _ _ => true
  | DeleteContact _ _ => true
  | _ => false
  end.

(** The four shapes a body takes on the contact routes. *)
Inductive contact_body : json -> Prop :=
| body_contact (x : ContactCreate.t) : contact_body (ContactCreate.to_json x)
| body_contacts (xs : list ContactCreate.t) :
    contact_body (JArr (map ContactCreate.to_json xs))
| body_detail (detail : string) : contact_body (JObj [("detail", JStr detail)])
| body_server_error : contact_body (JStr "Internal Server Error").

(** A stored contact under another key and another owner. *)
Definition rekeyed (c : Contact.t) (pk owner : Z) : Contact.t :=
  Contact.mk pk (Contact.first_name c) (Contact.last_name c) (Contact.email c)
    (Contact.phone_number c) (Contact.birthday c) (Contact.additional_info c) owner.

(** A stored user with other credentials and flags. *)
Definition with_credentials (u : UserDB.t) (hashed_password : string)
  (is_active is_superuser : bool) : UserDB.t :=
  UserDB.mk (UserDB.id u) (UserDB.email u) hashed_password is_active is_superuser
    (UserDB.avatar u).

(** Two stored states that differ in the ids of their contacts only: the
    same users, and contacts that agree, one by one, on everything but the
    id. *)
Definition same_but_ids (db db' : Db) : Prop :=
  users db = users db' /\
  Forall2 (fun c c' => c' = rekeyed c (Contact.id c') (Contact.owner_id c))
          (contacts db) (contacts db').

(** The last sentence of the claim on the contact responses, as the spec
    words it: nothing a client gets back tells the ids apart. *)
Definition responses_hide_ids : Prop :=
  forall (db db' : Db) (user : UserDB.t) (contact_id : Z),
    same_but_ids db db' ->
    respond 200 encode_contact (fst (run (read_contact contact_id user) db))
    = respond 200 encode_contact (fst (run (read_contact contact_id user) db')).

(** ** Sample data *)

Module Sample.

Definition alice : UserDB.t :=
  UserDB.mk 1 "alice@example.com" "hash-of-alice" true false None.

Definition bob : UserDB.t :=
  UserDB.mk 2 "bob@example.com" "hash-of-bob" true false None.

Definition ada : Contact.t :=
  Contact.mk 1 "Ada" "Lovelace" "ada@example.com" "+44 20 7946 0001"
    (mkdate 1815 12 10) None 1.

Definition grace : Contact.t :=
  Contact.mk 2 "Grace" "Hopper" "grace@example.com" "+1 212 555 0102"
    (mkdate 1906 12 9) (Some "navy") 2.

Definition carol : UserDB.t :=
  UserDB.mk 3 "carol@example.com" "hash-of-carol" true false None.

Definition db : Db := mkDb [alice; bob; carol] 4 [ada; grace] 3.

(** The same state with Ada stored under the key 5. *)
Definition db_rekeyed : Db :=
  mkDb [alice; bob; carol] 4 [rekeyed ada 5 1; grace] 3.

(** A payload whose birthday carries a time of day. *)
Definition afternoon : ContactCreate.t :=
  ContactCreate.mk "Ada" "King" "ada.king@example.com" "+44 20 7946 0002"
    (mkdatetime (mkdate 1815 12 10) 12 30 0 0 None) (Some "countess").

(** A payload whose birthday is a plain calendar date. *)
Definition midnight : ContactCreate.t :=
  ContactCreate.mk "Ada" "King" "ada.king@example.com" "+44 20 7946 0002"
    (datetime_of_date (mkdate 1815 12 10)) (Some "countess").

Definition numbered (n : Z) : ContactCreate.t :=
  ContactCreate.mk "Contact" "Number" "n@example.com" "+1 212 555 0100"
    (datetime_of_date (mkdate 2000 1 n)) None.

Definition fifteen : list ContactCreate.t :=
  map (fun n => numbered (Z.of_nat n)) (seq 1 15).

Definition SECRET : string := "secret".

Definition hash (password : string) : string := ("hash-of-" ++ password)%string.

Definition verify (password hashed : string) : bool :=
  String.eqb (hash password) hashed.

Definition decimal (z : Z) : string := NilZero.string_of_int (Z.to_int z).

Definition sign (secret : string) (subject : Z) (expiry : option Z) : string :=
  (secret ++ "." ++ decimal subject ++ "."
   ++ match expiry with Some e => decimal e | None => "" end)%string.

Definition upload (file : list byte) : result dict :=
  Ok [("public_id", VStr "avatar"); ("url", VStr "http://res.example.com/avatar.png")].

Definition api : Z -> request -> Db -> response * Db :=
  app SECRET hash verify sign upload.

(** The token a login of alice at time 1000 yields. *)
Definition token_of_alice : jwt :=
  write_token sign (get_jwt_strategy SECRET) 1000 alice.

End Sample.

(** ** Further notions *)

(** A payload as the table keeps it: the birthday reduced to its calendar
    date. *)
Definition stored_view (fields : ContactCreate.t) : ContactCreate.t :=
  ContactCreate.mk
    (ContactCreate.first_name fields) (ContactCreate.last_name fields)
    (ContactCreate.email fields) (ContactCreate.phone_number fields)
    (datetime_of_date (datetime_date (ContactCreate.birthday fields)))
    (ContactCreate.additional_info fields).

(** The routes that only read: GET /users/me, GET /contacts/ and
    GET /contacts/{contact_id}. *)
Definition get_route (req : request) : bool :=
  match req with
  | UsersMe _ => true
  | ReadContacts _ _ _ => true
  | ReadContact _ _ => true
  | _ => false
  end.

(** An image host whose answer carries no [url]. *)
Definition upload_without_url (file : list byte) : result dict :=
  Ok [("public_id", VStr "avatar")].

(** * Properties *)

Unset Implicit Arguments.

(** ** Queries *)

Lemma hd_error_filter_none (A : Type) (p : A -> bool) (l : list A) :
  (forall x, In x l -> p x = false) -> hd_error (filter p l) = None.
Proof.
  induction l as [|a l IH]; intros H; simpl; [reflexivity|].
  rewrite (H a (or_introl eq_refl)).
  apply IH. intros x Hx. apply H. now right.
Qed.

Lemma owned_with_id_false contact_id user c :
  (Contact.id c = contact_id -> Contact.owner_id c <> UserDB.id user) ->
  owned_with_id contact_id user c = false.
Proof.
  intros H. unfold owned_with_id.
  destruct (Contact.id c =? contact_id) eqn:E; [|reflexivity].
  apply Z.eqb_eq in E. simpl. apply Z.eqb_neq. auto.
Qed.

Lemma first_owned_none contact_id user s :
  (forall c, In c (contacts (working s)) ->
             Contact.id c = contact_id -> Contact.owner_id c <> UserDB.id user) ->
  Session.first (Query.filter (owned_with_id contact_id user) Session.query_Contact) s
  = (Ok None, s).
Proof.
  intros H. unfold Session.first, Query.filter, Session.query_Contact. simpl.
  rewrite hd_error_filter_none; [reflexivity|].
  intros c Hc. apply owned_with_id_false. auto.
Qed.

Lemma read_contact_not_found contact_id user s :
  (forall c, In c (contacts (working s)) ->
             Contact.id c = contact_id -> Contact.owner_id c <> UserDB.id user) ->
  read_contact contact_id user s = (Raise NotFound, s).
Proof.
  intros H. unfold read_contact, bind. now rewrite first_owned_none.
Qed.

Lemma update_contact_not_found contact_id fields user s :
  (forall c, In c (contacts (working s)) ->
             Contact.id c = contact_id -> Contact.owner_id c <> UserDB.id user) ->
  update_contact contact_id fields user s = (Raise NotFound, s).
Proof.
  intros H. unfold update_contact, bind. now rewrite first_owned_none.
Qed.

Lemma delete_contact_not_found contact_id user s :
  (forall c, In c (contacts (working s)) ->
             Contact.id c = contact_id -> Contact.owner_id c <> UserDB.id user) ->
  delete_contact contact_id user s = (Raise NotFound, s).
Proof.
  intros H. unfold delete_contact, bind. now rewrite first_owned_none.
Qed.

(** ** Routing *)

Section Routing.

Variable SECRET : string.
Variable sign : string -> Z -> option Z -> string.

(** A protected route whose token resolves to [user] runs its handler for
    that user. *)
Lemma protected_authorized (A : Type) now token user (handler : UserDB.t -> M A) db :
  read_token sign (get_jwt_strategy SECRET) now token (users db) = Some user ->
  run (protected SECRET sign now (Some token) handler) db = run (handler user) db.
Proof.
  intros H. unfold run, protected, bind, current_user. simpl. now rewrite H.
Qed.

(** A protected route whose token does not resolve answers 401 and leaves
    the stored state alone. *)
Lemma protected_unauthorized (A : Type) now token (handler : UserDB.t -> M A) db :
  read_token sign (get_jwt_strategy SECRET) now token (users db) = None ->
  run (protected SECRET sign now (Some token) handler) db = (Raise Unauthorized, db).
Proof.
  intros H. unfold run, protected, bind, current_user. simpl. now rewrite H.
Qed.

(** The user a token resolves to is a row of the table. *)
Lemma read_token_In strategy now token rows user :
  read_token sign strategy now token rows = Some user -> In user rows.
Proof.
  unfold read_token.
  destruct (negb (String.eqb (signature token)
                    (sign (secret strategy) (sub token) (exp token))));
    [discriminate|].
  destruct (match exp token with Some e => e <=? now | None => false end);
    [discriminate|].
  intros H. now apply find_some in H.
Qed.

Lemma protected_missing (A : Type) now (handler : UserDB.t -> M A) db :
  run (protected SECRET sign now None handler) db = (Raise Unauthorized, db).
Proof. reflexivity. Qed.

End Routing.

Lemma endpoint_run (A : Type) success (encode : A -> json) (m : M A) db r db' :
  run m db = (r, db') ->
  endpoint success encode m db = (respond success encode r, db').
Proof. intros H. unfold endpoint. now rewrite H. Qed.

Lemma run_not_found (A : Type) (m : M A) db :
  m (mkSession db db) = (Raise NotFound, mkSession db db) ->
  run m db = (Raise NotFound, db).
Proof. intros H. unfold run. now rewrite H. Qed.

Lemma endpoint_not_found (A : Type) success (encode : A -> json) (m : M A) db :
  run m db = (Raise NotFound, db) ->
  endpoint success encode m db
  = (mkresponse 404 (JObj [("detail", JStr "Contact not found")]), db).
Proof. intros H. unfold endpoint. now rewrite H. Qed.

(** ** Contacts of another user *)

(** C1.  Let [contact_id], an id the column can hold, name no contact owned
    by [user]: either no stored row has that id, or the rows that have it
    carry another owner.  Then [read_contact], [update_contact] (whatever the
    payload) and [delete_contact], run for [user], each raise
    404 "Contact not found", which the framework answers with status 404,
    and leave the stored state as it was. *)
Theorem foreign_or_missing_contact_is_not_found :
  forall (db : Db) (user : UserDB.t) (contact_id : Z) (fields : ContactUpdate.t),
    int64 contact_id ->
    (forall c, In c (contacts db) ->
               Contact.id c = contact_id -> Contact.owner_id c <> UserDB.id user) ->
    let not_found := Raise (HTTPException 404 "Contact not found") in
    run (read_contact contact_id user) db = (not_found, db) /\
    run (update_contact contact_id fields user) db = (not_found, db) /\
    run (delete_contact contact_id user) db = (not_found, db) /\
    status (respond 200 encode_contact not_found) = 404.
Proof.
  intros db user contact_id fields _ Hforeign not_found. subst not_found.
  repeat split; apply run_not_found.
  - now apply read_contact_not_found.
  - now apply update_contact_not_found.
  - now apply delete_contact_not_found.
Qed.

(** ** Creating contacts *)

Lemma as_nullable_string_of_optional o :
  as_nullable_string (of_optional o) = Ok o.
Proof. now destruct o. Qed.

Lemma init_of_payload pk fields user :
  Contact.init pk (ContactCreate.dict fields ++ [("owner_id", VInt (UserDB.id user))])
  = Ok (created pk fields user).
Proof.
  unfold Contact.init, ContactCreate.dict, required. simpl.
  now rewrite as_nullable_string_of_optional.
Qed.

Lemma existsb_false_forall (A : Type) (p : A -> bool) (l : list A) :
  existsb p l = false <-> (forall x, In x l -> p x = false).
Proof.
  induction l as [|a l IH]; simpl.
  - split; [intros _ x []|reflexivity].
  - rewrite orb_false_iff, IH. split.
    + intros [Ha Hl] x [<-|Hx]; auto.
    + intros H. split; [apply H; now left|]. intros x Hx. apply H. now right.
Qed.

Lemma key_unused_of_fresh db :
  contacts_sequence_fresh db ->
  existsb (fun r => Contact.id r =? contacts_seq db) (contacts db) = false.
Proof.
  intros H. apply existsb_false_forall. intros c Hc.
  unfold contacts_sequence_fresh in H. rewrite Forall_forall in H.
  apply Z.eqb_neq. specialize (H c Hc). lia.
Qed.

Lemma user_exists_of_In user db :
  In user (users db) ->
  existsb (fun u => UserDB.id u =? UserDB.id user) (users db) = true.
Proof.
  intros H. apply existsb_exists. exists user. split; [exact H|apply Z.eqb_refl].
Qed.

Lemma get_row_inserted pk row rows :
  Contact.id row = pk ->
  existsb (fun r => Contact.id r =? pk) rows = false ->
  get_row pk (rows ++ [row]) = Some row.
Proof.
  intros Hid H. unfold get_row.
  induction rows as [|a rows IH]; simpl in *.
  - now rewrite Hid, Z.eqb_refl.
  - apply orb_false_iff in H as [Ha H]. rewrite Ha. now apply IH.
Qed.

(** [create_contact] for a user of the database, when the next key is
    unused: the row goes to the end of the table under that key, and is
    what the handler returns. *)
Lemma create_contact_run fields user db :
  existsb (fun r => Contact.id r =? contacts_seq db) (contacts db) = false ->
  existsb (fun u => UserDB.id u =? UserDB.id user) (users db) = true ->
  run (create_contact fields user) db
  = (Ok (created (contacts_seq db) fields user),
     mkDb (users db) (users_seq db)
          (contacts db ++ [created (contacts_seq db) fields user])
          (contacts_seq db + 1)).
Proof.
  intros Hpk Hfk.
  unfold run, create_contact, bind, Session.add, insert_contact. simpl working.
  rewrite init_of_payload. simpl result_bind.
  rewrite Hpk. simpl Contact.owner_id. rewrite Hfk. simpl.
  unfold Session.refresh. simpl.
  now rewrite (get_row_inserted (contacts_seq db)
                 (created (contacts_seq db) fields user) (contacts db) eq_refl Hpk).
Qed.

Lemma create_contact_fresh fields user db :
  contacts_sequence_fresh db ->
  contacts_sequence_fresh
    (mkDb (users db) (users_seq db)
          (contacts db ++ [created (contacts_seq db) fields user])
          (contacts_seq db + 1)).
Proof.
  unfold contacts_sequence_fresh. simpl. intros H.
  apply Forall_app. split.
  - eapply Forall_impl; [|exact H]. simpl. intros; lia.
  - constructor; [simpl; lia|constructor].
Qed.

Lemma create_contacts_run payloads user : forall db,
  contacts_sequence_fresh db ->
  In user (users db) ->
  create_contacts payloads user db
  = (Ok (created_from (contacts_seq db) payloads user),
     mkDb (users db) (users_seq db)
          (contacts db ++ created_from (contacts_seq db) payloads user)
          (contacts_seq db + Z.of_nat (List.length payloads))).
Proof.
  induction payloads as [|fields rest IH]; intros db Hfresh Huser; simpl.
  - rewrite app_nil_r, Z.add_0_r. now destruct db.
  - rewrite create_contact_run
      by (auto using key_unused_of_fresh, user_exists_of_In).
    rewrite IH; [|now apply create_contact_fresh|exact Huser].
    simpl. rewrite <- app_assoc. simpl.
    do 2 f_equal. rewrite Zpos_P_of_succ_nat. lia.
Qed.

(** ** Listing contacts *)

Lemma read_contacts_run skip limit user db :
  0 <= defaulting 0 skip ->
  0 <= defaulting 10 limit ->
  run (read_contacts skip limit user) db
  = (Ok (firstn (Z.to_nat (defaulting 10 limit))
           (skipn (Z.to_nat (defaulting 0 skip)) (owned_by user db))), db).
Proof.
  intros Hs Hl.
  unfold run, read_contacts, bind, Session.all, Query.limit, Query.offset,
    Query.filter, Session.query_Contact. simpl.
  apply Z.ltb_ge in Hs, Hl. now rewrite Hs, Hl.
Qed.

Lemma owned_by_created_from user : forall payloads pk,
  filter (fun c => Contact.owner_id c =? UserDB.id user) (created_from pk payloads user)
  = created_from pk payloads user.
Proof.
  induction payloads as [|fields rest IH]; intros pk; simpl; [reflexivity|].
  now rewrite Z.eqb_refl, IH.
Qed.

Lemma length_created_from user : forall payloads pk,
  List.length (created_from pk payloads user) = List.length payloads.
Proof.
  induction payloads as [|fields rest IH]; intros pk; simpl; [reflexivity|].
  now rewrite IH.
Qed.

(** The rows come out in the order of the payloads, each holding what its
    payload gave. *)
Lemma created_from_nth user : forall payloads pk n fields,
  nth_error payloads n = Some fields ->
  nth_error (created_from pk payloads user) n
  = Some (created (pk + Z.of_nat n) fields user).
Proof.
  induction payloads as [|f rest IH]; intros pk n fields H.
  - now destruct n.
  - destruct n as [|n]; simpl in *.
    + injection H as <-. now rewrite Z.add_0_r.
    + rewrite (IH _ _ _ H). do 2 f_equal. lia.
Qed.

(** C3.  GET /contacts/ with [skip] and [limit] returns the caller's own
    contacts, in the order they were inserted, from position [skip] on and
    no more than [limit] of them; whatever the size of [limit], nothing
    caps it: once it covers the rest of the caller's contacts, the whole rest
    comes back.  Left out, [skip] is 0 and [limit] is 10.  And after a user
    with no contacts has created fifteen, [skip=10, limit=10] returns the
    last five, in the order of their creation. *)
Theorem read_contacts_page :
  forall (db : Db) (user : UserDB.t) (skip limit : Z) (payloads : list ContactCreate.t),
    0 <= skip ->
    0 <= limit ->
    let page := firstn (Z.to_nat limit) (skipn (Z.to_nat skip) (owned_by user db)) in
    run (read_contacts (Some skip) (Some limit) user) db = (Ok page, db) /\
    Z.of_nat (List.length page) <= limit /\
    (Z.of_nat (List.length (owned_by user db)) <= skip + limit ->
     page = skipn (Z.to_nat skip) (owned_by user db)) /\
    run (read_contacts None None user) db
    = run (read_contacts (Some 0) (Some 10) user) db /\
    (contacts_sequence_fresh db ->
     In user (users db) ->
     owned_by user db = [] ->
     List.length payloads = 15%nat ->
     exists rows db',
       create_contacts payloads user db = (Ok rows, db') /\
       rows = created_from (contacts_seq db) payloads user /\
       run (read_contacts (Some 10) (Some 10) user) db' = (Ok (skipn 10 rows), db') /\
       List.length (skipn 10 rows) = 5%nat).
Proof.
  intros db user skip limit payloads Hskip Hlimit page.
  split; [|split; [|split; [|split]]].
  - now apply (read_contacts_run (Some skip) (Some limit)).
  - subst page. rewrite length_firstn. lia.
  - intros Hall. subst page. apply firstn_all2. rewrite length_skipn. lia.
  - reflexivity.
  - intros Hfresh Huser Hnone Hlen.
    exists (created_from (contacts_seq db) payloads user).
    eexists. split; [now apply create_contacts_run|]. split; [reflexivity|].
    split.
    + rewrite (read_contacts_run (Some 10) (Some 10)) by (simpl; lia).
      change (Z.to_nat (defaulting 10 (Some 10))) with 10%nat.
      change (Z.to_nat (defaulting 0 (Some 10))) with 10%nat.
      do 2 f_equal. unfold owned_by. cbn [contacts].
      rewrite filter_app. fold (owned_by user db). rewrite Hnone, app_nil_l.
      rewrite owned_by_created_from.
      apply firstn_all2. rewrite length_skipn, length_created_from, Hlen.
      apply Nat.leb_le. reflexivity.
    + now rewrite length_skipn, length_created_from, Hlen.
Qed.

(** ** Rows under a primary key *)

Lemma NoDup_ids_split before c after :
  NoDup (map Contact.id (before ++ c :: after)) ->
  (forall r, In r before -> Contact.id r <> Contact.id c) /\
  (forall r, In r after -> Contact.id r <> Contact.id c).
Proof.
  rewrite map_app. simpl. intros H.
  apply NoDup_remove_2 in H. split; intros r Hr E; apply H, in_or_app.
  - left. rewrite <- E. now apply in_map.
  - right. rewrite <- E. now apply in_map.
Qed.

Lemma update_row_other pk row rows :
  (forall r, In r rows -> Contact.id r <> pk) -> update_row pk row rows = rows.
Proof.
  intros H. unfold update_row. induction rows as [|a rows IH]; simpl; [reflexivity|].
  rewrite (proj2 (Z.eqb_neq _ _) (H a (or_introl eq_refl))).
  f_equal. apply IH. intros r Hr. apply H. now right.
Qed.

Lemma delete_row_other pk rows :
  (forall r, In r rows -> Contact.id r <> pk) -> delete_row pk rows = rows.
Proof.
  intros H. unfold delete_row. induction rows as [|a rows IH]; simpl; [reflexivity|].
  rewrite (proj2 (Z.eqb_neq _ _) (H a (or_introl eq_refl))). simpl.
  f_equal. apply IH. intros r Hr. apply H. now right.
Qed.

Lemma update_row_split before c after row :
  NoDup (map Contact.id (before ++ c :: after)) ->
  update_row (Contact.id c) row (before ++ c :: after) = before ++ row :: after.
Proof.
  intros H. apply NoDup_ids_split in H as [Hb Ha].
  unfold update_row. rewrite map_app. simpl. rewrite Z.eqb_refl.
  fold (update_row (Contact.id c) row before).
  fold (update_row (Contact.id c) row after).
  now rewrite !update_row_other.
Qed.

Lemma delete_row_split before c after :
  NoDup (map Contact.id (before ++ c :: after)) ->
  delete_row (Contact.id c) (before ++ c :: after) = before ++ after.
Proof.
  intros H. apply NoDup_ids_split in H as [Hb Ha].
  unfold delete_row. rewrite filter_app. simpl. rewrite Z.eqb_refl. simpl.
  fold (delete_row (Contact.id c) before).
  fold (delete_row (Contact.id c) after).
  now rewrite !delete_row_other.
Qed.

Lemma filter_none (A : Type) (p : A -> bool) (l : list A) :
  (forall x, In x l -> p x = false) -> filter p l = [].
Proof.
  induction l as [|a l IH]; intros H; simpl; [reflexivity|].
  rewrite (H a (or_introl eq_refl)). apply IH. intros x Hx. apply H. now right.
Qed.

(** Under the primary key, the filter of the handlers addressed by id finds
    the caller's own contact. *)
Lemma first_owned_split before c after user s :
  contacts (working s) = before ++ c :: after ->
  NoDup (map Contact.id (before ++ c :: after)) ->
  Contact.owner_id c = UserDB.id user ->
  Session.first (Query.filter (owned_with_id (Contact.id c) user) Session.query_Contact) s
  = (Ok (Some c), s).
Proof.
  intros Hrows Hkey Hown.
  unfold Session.first, Query.filter, Session.query_Contact. simpl.
  rewrite Hrows, filter_app. apply NoDup_ids_split in Hkey as [Hb _].
  rewrite filter_none.
  - simpl. unfold owned_with_id at 1. now rewrite Z.eqb_refl, Hown, Z.eqb_refl.
  - intros r Hr. apply owned_with_id_false. intros E. now apply Hb in E.
Qed.

Lemma hd_error_filter_some (A : Type) (p : A -> bool) (l : list A) (x : A) :
  hd_error (filter p l) = Some x ->
  exists before after,
    l = before ++ x :: after /\ p x = true /\ (forall y, In y before -> p y = false).
Proof.
  induction l as [|a l IH]; simpl; [discriminate|].
  destruct (p a) eqn:E; simpl.
  - intros [= <-]. exists [], l. repeat split; [exact E|intros y []].
  - intros H. destruct (IH H) as (before & after & -> & Hp & Hb).
    exists (a :: before), after. repeat split; [exact Hp|].
    intros y [<-|Hy]; auto.
Qed.

(** ** Updating a contact *)

Lemma update_row_twice pk row row' rows :
  Contact.id row = pk ->
  update_row pk row' (update_row pk row rows) = update_row pk row' rows.
Proof.
  intros Hid. unfold update_row. rewrite map_map. apply map_ext. intros r.
  destruct (Contact.id r =? pk) eqn:E; [|now rewrite E].
  now rewrite Hid, Z.eqb_refl.
Qed.

(** The loop of [update_contact]: six assignments, after which the object
    and its row hold the payload, under the id and the owner they had. *)
Lemma for_each_setattr c fields s :
  for_each (ContactUpdate.dict fields) c
    (fun obj item => Session.setattr obj (fst item) (snd item)) s
  = (Ok (replaced c fields),
     mkSession (committed s)
       (set_contacts (working s)
          (update_row (Contact.id c) (replaced c fields) (contacts (working s))))).
Proof.
  unfold ContactUpdate.dict, ContactCreate.dict, for_each, bind, Session.setattr.
  cbn [fst snd Contact.setattr String.eqb Ascii.eqb Bool.eqb as_string as_date
       result_bind andb contacts working committed set_contacts
       Contact.id Contact.first_name Contact.last_name Contact.email
       Contact.phone_number Contact.birthday Contact.additional_info
       Contact.owner_id].
  rewrite as_nullable_string_of_optional.
  cbn [result_bind working committed set_contacts contacts Contact.id
       Contact.first_name Contact.last_name Contact.email
       Contact.phone_number Contact.birthday Contact.additional_info
       Contact.owner_id ret].
  unfold replaced.
  repeat (rewrite update_row_twice by reflexivity).
  reflexivity.
Qed.

Lemma get_row_updated c row rows :
  In c rows ->
  Contact.id row = Contact.id c ->
  get_row (Contact.id c) (update_row (Contact.id c) row rows) = Some row.
Proof.
  intros Hin Hid. unfold get_row, update_row.
  induction rows as [|a rows IH]; simpl; [destruct Hin|].
  destruct (Contact.id a =? Contact.id c) eqn:E.
  - now rewrite Hid, Z.eqb_refl.
  - rewrite E. destruct Hin as [->|Hin]; [now rewrite Z.eqb_refl in E|auto].
Qed.

(** [update_contact] once its query has found [c]. *)
Lemma update_contact_found contact_id fields user c s :
  Session.first (Query.filter (owned_with_id contact_id user) Session.query_Contact) s
  = (Ok (Some c), s) ->
  In c (contacts (working s)) ->
  update_contact contact_id fields user s
  = (Ok (replaced c fields),
     let db' := set_contacts (working s)
                  (update_row (Contact.id c) (replaced c fields) (contacts (working s))) in
     mkSession db' db').
Proof.
  intros Hfirst Hin. unfold update_contact, bind at 1. rewrite Hfirst.
  unfold bind at 1. rewrite for_each_setattr.
  unfold bind, Session.commit, Session.refresh, ret.
  cbn [working committed set_contacts contacts].
  change (Contact.id (replaced c fields)) with (Contact.id c).
  now rewrite (get_row_updated c (replaced c fields) _ Hin eq_refl).
Qed.

Lemma update_contact_run before c after fields user db :
  contacts db = before ++ c :: after ->
  contacts_primary_key db ->
  Contact.owner_id c = UserDB.id user ->
  run (update_contact (Contact.id c) fields user) db
  = (Ok (replaced c fields),
     set_contacts db (before ++ replaced c fields :: after)).
Proof.
  intros Hrows Hkey Hown. unfold contacts_primary_key in Hkey. rewrite Hrows in Hkey.
  unfold run.
  rewrite (update_contact_found (Contact.id c) fields user c).
  - cbn [committed working]. now rewrite Hrows, update_row_split.
  - now apply (first_owned_split before c after).
  - cbn [working]. rewrite Hrows. apply in_elt.
Qed.

(** ** Deleting a contact *)

Lemma delete_contact_found contact_id user c s :
  Session.first (Query.filter (owned_with_id contact_id user) Session.query_Contact) s
  = (Ok (Some c), s) ->
  delete_contact contact_id user s
  = (Ok c,
     let db' := set_contacts (working s) (delete_row (Contact.id c) (contacts (working s))) in
     mkSession db' db').
Proof.
  intros Hfirst. unfold delete_contact, bind at 1. now rewrite Hfirst.
Qed.

Lemma delete_contact_run before c after user db :
  contacts db = before ++ c :: after ->
  contacts_primary_key db ->
  Contact.owner_id c = UserDB.id user ->
  run (delete_contact (Contact.id c) user) db
  = (Ok c, set_contacts db (before ++ after)).
Proof.
  intros Hrows Hkey Hown. unfold contacts_primary_key in Hkey. rewrite Hrows in Hkey.
  unfold run.
  rewrite (delete_contact_found (Contact.id c) user c).
  - cbn [committed working]. now rewrite Hrows, delete_row_split.
  - now apply (first_owned_split before c after).
Qed.

(** ** Authorized requests *)

Lemma endpoint_authorized (A : Type) SECRET sign now token user success
      (encode : A -> json) (handler : UserDB.t -> M A) db :
  read_token sign (get_jwt_strategy SECRET) now token (users db) = Some user ->
  endpoint success encode (protected SECRET sign now (Some token) handler) db
  = (respond success encode (fst (run (handler user) db)), snd (run (handler user) db)).
Proof.
  intros H. unfold endpoint. rewrite (protected_authorized _ _ _ _ _ _ _ _ H).
  now destruct (run (handler user) db).
Qed.

(** C4 as worded fails at this request: a PUT whose birthday carries a time
    of day does not give that value back, the [Date] column having kept the
    calendar date only. *)
Lemma update_drops_time_of_day :
  ~ update_returns_payload Sample.db Sample.alice 1 Sample.afternoon.
Proof.
  intros (c' & db' & Hrun & Hpayload).
  vm_compute in Hrun. injection Hrun as <- _.
  discriminate Hpayload.
Qed.

(** C4, as the code has it.  PUT /contacts/{id} on a contact [c] of the
    caller puts the payload's first name, last name, email, phone number and
    note in place of [c]'s, and the calendar date of the payload's birthday
    in place of [c]'s birthday; the row takes the place of [c] in the table
    and is what the handler returns.  The time of day of the payload's
    birthday is not kept; a payload whose birthday is a plain date comes
    back as it was sent. *)
Theorem update_contact_replaces_fields :
  forall (db : Db) (user : UserDB.t) (c : Contact.t) (fields : ContactUpdate.t)
         (before after : list Contact.t),
    contacts db = before ++ c :: after ->
    contacts_primary_key db ->
    Contact.owner_id c = UserDB.id user ->
    exists c',
      run (update_contact (Contact.id c) fields user) db
      = (Ok c', set_contacts db (before ++ c' :: after)) /\
      Contact.first_name c' = ContactCreate.first_name fields /\
      Contact.last_name c' = ContactCreate.last_name fields /\
      Contact.email c' = ContactCreate.email fields /\
      Contact.phone_number c' = ContactCreate.phone_number fields /\
      Contact.birthday c' = datetime_date (ContactCreate.birthday fields) /\
      Contact.additional_info c' = ContactCreate.additional_info fields /\
      (forall d, ContactCreate.birthday fields = datetime_of_date d ->
                 ContactCreate.from_orm c' = fields).
Proof.
  intros db user c fields before after Hrows Hkey Hown.
  exists (replaced c fields).
  split; [now apply update_contact_run|].
  repeat split.
  intros d Hd. unfold ContactCreate.from_orm, replaced. simpl.
  destruct fields as [fn ln em ph bd ai]. simpl in *. now subst bd.
Qed.

(** C9.  Under the primary key, a PUT /contacts/{contact_id} leaves the
    [user] table and both sequences alone, and takes every row of
    [contacts] either to itself or, for the caller's row of that id, to the
    row with the six payload columns replaced; in either case the row's id
    and owner_id are what they were.  The record returned, if any, has the
    id asked for and the caller as its owner. *)
Theorem update_contact_keeps_id_and_owner :
  forall (db : Db) (user : UserDB.t) (contact_id : Z) (fields : ContactUpdate.t),
    contacts_primary_key db ->
    let outcome := run (update_contact contact_id fields user) db in
    users (snd outcome) = users db /\
    users_seq (snd outcome) = users_seq db /\
    contacts_seq (snd outcome) = contacts_seq db /\
    Forall2 (fun old new =>
               Contact.id new = Contact.id old /\
               Contact.owner_id new = Contact.owner_id old /\
               (new = old \/
                (owned_with_id contact_id user old = true /\ new = replaced old fields)))
            (contacts db) (contacts (snd outcome)) /\
    (forall c', fst outcome = Ok c' ->
                Contact.id c' = contact_id /\ Contact.owner_id c' = UserDB.id user).
Proof.
  intros db user contact_id fields Hkey outcome. subst outcome.
  assert (Hrefl : forall rows : list Contact.t,
             Forall2 (fun old new =>
               Contact.id new = Contact.id old /\
               Contact.owner_id new = Contact.owner_id old /\
               (new = old \/
                (owned_with_id contact_id user old = true /\ new = replaced old fields)))
               rows rows).
  { induction rows; constructor; auto. }
  destruct (hd_error (filter (owned_with_id contact_id user) (contacts db))) as [c|] eqn:E.
  - destruct (hd_error_filter_some _ _ _ _ E) as (before & after & Hrows & Hp & _).
    unfold owned_with_id in Hp. apply andb_prop in Hp as [Hid Hown].
    apply Z.eqb_eq in Hid, Hown. subst contact_id.
    rewrite (update_contact_run before c after fields user db Hrows Hkey Hown).
    cbn [fst snd set_contacts users users_seq contacts contacts_seq].
    repeat split; try reflexivity.
    + rewrite Hrows. apply Forall2_app; [apply Hrefl|].
      constructor; [|apply Hrefl].
      repeat split. right. split; [|reflexivity].
      unfold owned_with_id. now rewrite Z.eqb_refl, Hown, Z.eqb_refl.
    + now injection H as <-.
    + now injection H as <-.
  - assert (Hnone : run (update_contact contact_id fields user) db = (Raise NotFound, db)).
    { unfold run, update_contact, bind, Session.first, Query.filter,
        Session.query_Contact. simpl. now rewrite E. }
    rewrite Hnone. simpl. repeat split; try apply Hrefl; discriminate.
Qed.

(** C5.  Under the primary key: [delete_contact] on the id of a contact [c]
    of the caller returns [c] as it was stored, and the stored contacts
    afterwards are the rows that were before [c] followed by the rows that
    were after it, none of them with [c]'s id, the users and both sequences
    being what they were; on an id the column can hold that names no contact
    of the caller it raises 404 "Contact not found", which the framework
    answers with status 404, not 500, and changes nothing. *)
Theorem delete_contact_removes_and_returns :
  forall (db : Db) (user : UserDB.t) (c : Contact.t) (before after : list Contact.t)
         (contact_id : Z),
    contacts_primary_key db ->
    (contacts db = before ++ c :: after ->
     Contact.owner_id c = UserDB.id user ->
     let outcome := run (delete_contact (Contact.id c) user) db in
     fst outcome = Ok c /\
     contacts (snd outcome) = before ++ after /\
     (forall r, In r (contacts (snd outcome)) -> Contact.id r <> Contact.id c) /\
     users (snd outcome) = users db /\
     users_seq (snd outcome) = users_seq db /\
     contacts_seq (snd outcome) = contacts_seq db) /\
    (int64 contact_id ->
     (forall r, In r (contacts db) ->
                Contact.id r = contact_id -> Contact.owner_id r <> UserDB.id user) ->
     run (delete_contact contact_id user) db
     = (Raise (HTTPException 404 "Contact not found"), db) /\
     status (respond 200 encode_contact
               (fst (run (delete_contact contact_id user) db))) = 404).
Proof.
  intros db user c before after contact_id Hkey. split.
  - intros Hrows Hown outcome. subst outcome.
    rewrite (delete_contact_run before c after user db Hrows Hkey Hown).
    cbn [fst snd set_contacts contacts users users_seq contacts_seq].
    repeat split.
    unfold contacts_primary_key in Hkey. rewrite Hrows in Hkey.
    apply NoDup_ids_split in Hkey as [Hb Ha].
    intros r Hr. apply in_app_or in Hr as [Hr|Hr]; auto.
  - intros _ Hforeign.
    assert (Hrun : run (delete_contact contact_id user) db = (Raise NotFound, db))
      by now apply run_not_found, delete_contact_not_found.
    rewrite Hrun. split; reflexivity.
Qed.

(** ** Registration *)

(** C2, at every input: [UserManager.create] raises TypeError on its first
    line, the call of [validate_password] with one argument; no INSERT is
    tried, nothing is stored, and the handler's
    409 "User with this email already exists" is never raised.  The
    framework answers a registration with status 500. *)
Theorem create_raises_before_the_insert :
  forall SECRET password_helper_hash password_helper_verify sign cloudinary_uploader_upload
         (now : Z) (db : Db) (user : UserCreate.t) (safe : bool),
    run (create password_helper_hash user safe) db = (Raise TypeError, db) /\
    fst (run (create password_helper_hash user safe) db)
    <> Raise (HTTPException 409 "User with this email already exists") /\
    app SECRET password_helper_hash password_helper_verify sign
        cloudinary_uploader_upload now (AuthRegister user) db
    = (mkresponse 500 (JStr "Internal Server Error"), db).
Proof.
  intros. repeat split. discriminate.
Qed.

Lemma create_state password_helper_hash user safe db :
  snd (run (create password_helper_hash user safe) db) = db.
Proof. reflexivity. Qed.

(** ** The avatar *)

Lemma find_user_updated user row rows :
  In user rows ->
  UserDB.id row = UserDB.id user ->
  find (fun u => UserDB.id u =? UserDB.id user) (update_user_row (UserDB.id user) row rows)
  = Some row.
Proof.
  intros Hin Hid. unfold update_user_row.
  induction rows as [|a rows IH]; simpl; [destruct Hin|].
  destruct (UserDB.id a =? UserDB.id user) eqn:E.
  - now rewrite Hid, Z.eqb_refl.
  - rewrite E. destruct Hin as [->|Hin]; [now rewrite Z.eqb_refl in E|auto].
Qed.

(** C7.  When the image host answers the upload of [file] with a result
    whose [url] is the string [url], [upload_avatar], run for a stored user
    and whatever the [user_id] of the path, returns [{"avatar_url": url}];
    the session's copy of that user then has [url] as its avatar and every
    other column as it was; and the stored state, the user's avatar column
    included, is what it was before, in the session and after the request. *)
Theorem upload_avatar_is_not_persisted :
  forall cloudinary_uploader_upload (db : Db) (user : UserDB.t) (user_id : Z)
         (file : list byte) (result : dict) (url : string),
    In user (users db) ->
    cloudinary_uploader_upload file = Ok result ->
    lookup "url" result = Some (VStr url) ->
    let outcome :=
      upload_avatar cloudinary_uploader_upload user_id file user (mkSession db db) in
    fst outcome = Ok [("avatar_url", VStr url)] /\
    (exists in_memory,
        find (fun u => UserDB.id u =? UserDB.id user) (users (working (snd outcome)))
        = Some in_memory /\
        UserDB.avatar in_memory = Some url /\
        UserDB.id in_memory = UserDB.id user /\
        UserDB.email in_memory = UserDB.email user /\
        UserDB.hashed_password in_memory = UserDB.hashed_password user /\
        UserDB.is_active in_memory = UserDB.is_active user /\
        UserDB.is_superuser in_memory = UserDB.is_superuser user) /\
    committed (snd outcome) = db /\
    run (upload_avatar cloudinary_uploader_upload user_id file user) db
    = (Ok [("avatar_url", VStr url)], db).
Proof.
  intros upload db user user_id file result url Hin Hupload Hurl outcome.
  assert (Hout : outcome
                 = (Ok [("avatar_url", VStr url)],
                    mkSession db
                      (set_users db
                         (update_user_row (UserDB.id user)
                            (UserDB.set_avatar user (Some url)) (users db))))).
  { subst outcome. unfold upload_avatar. now rewrite Hupload, Hurl. }
  split; [now rewrite Hout|]. split; [|split].
  - exists (UserDB.set_avatar user (Some url)). rewrite Hout.
    cbn [snd working set_users users].
    split; [now apply find_user_updated|]. now repeat split.
  - now rewrite Hout.
  - unfold run. fold outcome. now rewrite Hout.
Qed.

(** ** What a response shows *)

Lemma has_key_array k items :
  has_key k (JArr items) = existsb (has_key k) items.
Proof.
  induction items as [|x items IH]; [reflexivity|].
  simpl in *. now rewrite IH.
Qed.

Lemma has_key_optional k o : has_key k (json_optional o) = false.
Proof. now destruct o. Qed.

Lemma has_key_contact k x :
  k <> "first_name" -> k <> "last_name" -> k <> "email" ->
  k <> "phone_number" -> k <> "birthday" -> k <> "additional_info" ->
  has_key k (ContactCreate.to_json x) = false.
Proof.
  intros H1 H2 H3 H4 H5 H6. apply String.eqb_neq in H1, H2, H3, H4, H5, H6.
  unfold ContactCreate.to_json. cbn [has_key].
  now rewrite H1, H2, H3, H4, H5, H6, has_key_optional.
Qed.

Lemma has_key_contacts k xs :
  k <> "first_name" -> k <> "last_name" -> k <> "email" ->
  k <> "phone_number" -> k <> "birthday" -> k <> "additional_info" ->
  has_key k (JArr (map ContactCreate.to_json xs)) = false.
Proof.
  intros H1 H2 H3 H4 H5 H6. rewrite has_key_array.
  apply existsb_false_forall. intros j Hj.
  apply in_map_iff in Hj as (x & <- & _). now apply has_key_contact.
Qed.

Lemma has_key_contact_body k j :
  contact_body j ->
  k <> "first_name" -> k <> "last_name" -> k <> "email" ->
  k <> "phone_number" -> k <> "birthday" -> k <> "additional_info" ->
  k <> "detail" ->
  has_key k j = false.
Proof.
  intros [x|xs|detail|] H1 H2 H3 H4 H5 H6 H7.
  - now apply has_key_contact.
  - now apply has_key_contacts.
  - apply String.eqb_neq in H7. cbn [has_key]. now rewrite H7.
  - reflexivity.
Qed.

Lemma has_key_user k x :
  k <> "id" -> k <> "email" -> k <> "avatar" ->
  has_key k (UserRead.to_json x) = false.
Proof.
  intros H1 H2 H3. apply String.eqb_neq in H1, H2, H3.
  unfold UserRead.to_json. cbn [has_key].
  now rewrite H1, H2, H3, has_key_optional.
Qed.

Lemma has_key_token k t :
  k <> "access_token" -> k <> "token_type" ->
  has_key k (encode_token t) = false.
Proof.
  intros H1 H2. apply String.eqb_neq in H1, H2.
  unfold encode_token. cbn [has_key].
  rewrite H1, H2. now destruct (exp t).
Qed.

Lemma has_key_value k v : has_key k (encode_value v) = false.
Proof. now destruct v. Qed.

Lemma respond_contact_body success r :
  contact_body (body (respond success encode_contact r)).
Proof.
  destruct r as [c|[]]; simpl; constructor.
Qed.

Lemma respond_contacts_body success r :
  contact_body (body (respond success encode_contacts r)).
Proof.
  destruct r as [l|[]]; simpl; try constructor.
  unfold encode_contacts, encode_contact. rewrite <- map_map. constructor.
Qed.

Lemma endpoint_body (A : Type) success (encode : A -> json) (m : M A) db :
  body (fst (endpoint success encode m db))
  = body (respond success encode (fst (run m db))).
Proof. unfold endpoint. now destruct (run m db). Qed.

(** C10 as worded fails: the two sample states differ only in the key Ada
    is stored under, and GET /contacts/1 asked by Alice tells them apart,
    answering 200 in the one and 404 in the other; so the responses of a
    contact route do let a client learn an id of its own contacts. *)
Lemma responses_tell_ids_apart : ~ responses_hide_ids.
Proof.
  intros Hhide.
  specialize (Hhide Sample.db Sample.db_rekeyed Sample.alice 1).
  assert (Hsame : same_but_ids Sample.db Sample.db_rekeyed).
  { split; [reflexivity|]. repeat constructor. }
  specialize (Hhide Hsame). vm_compute in Hhide. discriminate Hhide.
Qed.

(** C10, as the code has it.  On each of the five contact routes, whatever
    the request and the stored state, the body of the response is a
    [ContactCreate] object, a list of them, an error detail or the
    server-error text; no object in it has a member named [id] or
    [owner_id]; and the object a stored contact is serialized to is the same
    under any other key and owner. *)
Theorem contact_responses_carry_no_id :
  forall SECRET password_helper_hash password_helper_verify sign cloudinary_uploader_upload
         (now : Z) (req : request) (db : Db),
    contact_route req = true ->
    let answer := fst (app SECRET password_helper_hash password_helper_verify sign
                           cloudinary_uploader_upload now req db) in
    contact_body (body answer) /\
    has_key "id" (body answer) = false /\
    has_key "owner_id" (body answer) = false /\
    (forall c pk owner, encode_contact (rekeyed c pk owner) = encode_contact c).
Proof.
  intros SECRET hash verify sign upload now req db Hroute answer.
  assert (Hbody : contact_body (body answer)).
  { subst answer. destruct req; try discriminate Hroute; unfold app;
      rewrite endpoint_body;
      first [apply respond_contact_body | apply respond_contacts_body]. }
  split; [exact Hbody|].
  split; [|split].
  - apply has_key_contact_body; [exact Hbody|discriminate..].
  - apply has_key_contact_body; [exact Hbody|discriminate..].
  - reflexivity.
Qed.

Lemma respond_has_key (A : Type) k success (encode : A -> json) r :
  k <> "detail" ->
  (forall a, r = Ok a -> has_key k (encode a) = false) ->
  has_key k (body (respond success encode r)) = false.
Proof.
  intros Hk H. apply String.eqb_neq in Hk.
  destruct r as [a|[]]; simpl; auto. now rewrite Hk.
Qed.

Lemma protected_ok (A : Type) SECRET sign now authorization
      (handler : UserDB.t -> M A) db a :
  fst (run (protected SECRET sign now authorization handler) db) = Ok a ->
  exists user s, fst (handler user s) = Ok a.
Proof.
  unfold run, protected, bind, current_user.
  destruct authorization as [token|]; [|discriminate].
  simpl. destruct (read_token _ _ _ _ _) as [user|]; [|discriminate].
  intros H. exists user, (mkSession db db).
  now destruct (handler user (mkSession db db)).
Qed.

Lemma upload_avatar_ok cloudinary_uploader_upload user_id file user s d :
  fst (upload_avatar cloudinary_uploader_upload user_id file user s) = Ok d ->
  exists v, d = [("avatar_url", v)].
Proof.
  unfold upload_avatar.
  destruct (cloudinary_uploader_upload file) as [result|]; [|discriminate].
  destruct (lookup "url" result) as [v|]; [|discriminate].
  destruct (as_nullable_string v); intros [= <-]; now exists v.
Qed.

Lemma app_has_no_key SECRET password_helper_hash password_helper_verify sign
      cloudinary_uploader_upload now req db k :
  k <> "detail" ->
  k <> "first_name" -> k <> "last_name" -> k <> "email" ->
  k <> "phone_number" -> k <> "birthday" -> k <> "additional_info" ->
  k <> "id" -> k <> "avatar" -> k <> "avatar_url" ->
  k <> "access_token" -> k <> "token_type" ->
  has_key k (body (fst (app SECRET password_helper_hash password_helper_verify sign
                            cloudinary_uploader_upload now req db))) = false.
Proof.
  intros Hdetail H1 H2 H3 H4 H5 H6 Hid Hav Hurl Hat Htt.
  destruct req; unfold app; rewrite endpoint_body.
  - apply respond_has_key; [exact Hdetail|]. intros a _. now apply has_key_user.
  - apply respond_has_key; [exact Hdetail|]. intros a _. now apply has_key_token.
  - apply respond_has_key; [exact Hdetail|]. intros a _. now apply has_key_user.
  - apply respond_has_key; [exact Hdetail|]. intros d Hd.
    apply protected_ok in Hd as (user & s & Hd).
    apply upload_avatar_ok in Hd as [v ->].
    apply String.eqb_neq in Hurl. unfold encode_dict. cbn [map fst snd has_key].
    now rewrite Hurl, has_key_value.
  - apply has_key_contact_body; auto using respond_contact_body.
  - apply has_key_contact_body; auto using respond_contacts_body.
  - apply has_key_contact_body; auto using respond_contact_body.
  - apply has_key_contact_body; auto using respond_contact_body.
  - apply has_key_contact_body; auto using respond_contact_body.
Qed.

(** C8.  Whatever the request and the stored state, no object in the body
    of the response has a member named [hashed_password] or [password];
    and what a stored user is serialized to, through [UserRead], is the
    same whatever the user's hashed password and flags. *)
Theorem responses_omit_the_password_hash :
  forall SECRET password_helper_hash password_helper_verify sign cloudinary_uploader_upload
         (now : Z) (req : request) (db : Db),
    let answer := fst (app SECRET password_helper_hash password_helper_verify sign
                           cloudinary_uploader_upload now req db) in
    has_key "hashed_password" (body answer) = false /\
    has_key "password" (body answer) = false /\
    (forall u hashed_password is_active is_superuser,
        encode_user (with_credentials u hashed_password is_active is_superuser)
        = encode_user u).
Proof.
  intros SECRET hash verify sign upload now req db answer. subst answer.
  split; [|split].
  - apply app_has_no_key; discriminate.
  - apply app_has_no_key; discriminate.
  - reflexivity.
Qed.

(** ** A contact created by one user, asked for by another *)

Lemma created_by_another_is_not_found db owner other fields new_fields :
  contacts_sequence_fresh db ->
  In owner (users db) ->
  UserDB.id owner <> UserDB.id other ->
  exists c db',
    run (create_contact fields owner) db = (Ok c, db') /\
    run (read_contact (Contact.id c) other) db' = (Raise NotFound, db') /\
    run (update_contact (Contact.id c) new_fields other) db' = (Raise NotFound, db') /\
    run (delete_contact (Contact.id c) other) db' = (Raise NotFound, db').
Proof.
  intros Hfresh Howner Hother.
  set (c := created (contacts_seq db) fields owner).
  set (db' := mkDb (users db) (users_seq db) (contacts db ++ [c]) (contacts_seq db + 1)).
  exists c, db'. split.
  - apply create_contact_run; [now apply key_unused_of_fresh|now apply user_exists_of_In].
  - assert (Hforeign : forall r,
               In r (contacts (working (mkSession db' db'))) ->
               Contact.id r = Contact.id c -> Contact.owner_id r <> UserDB.id other).
    { intros r Hr Hid. simpl in Hr. apply in_app_or in Hr as [Hr|[<-|[]]].
      - unfold contacts_sequence_fresh in Hfresh. rewrite Forall_forall in Hfresh.
        specialize (Hfresh r Hr). simpl in Hid. lia.
      - exact Hother. }
    repeat split; apply run_not_found.
    + now apply read_contact_not_found.
    + now apply update_contact_not_found.
    + now apply delete_contact_not_found.
Qed.

(** ** What each handler leaves of the stored state *)



Lemma NoDup_map_snoc (A B : Type) (f : A -> B) (l : list A) (x : A) :
  NoDup (map f l) -> ~ In (f x) (map f l) -> NoDup (map f (l ++ [x])).
Proof.
  intros Hnd Hnew. rewrite map_app. simpl.
  apply NoDup_app; [exact Hnd|repeat constructor; intros []|].
  intros y Hy [<-|[]]. contradiction.
Qed.

Lemma delete_row_keeps_key pk rows :
  NoDup (map Contact.id rows) -> NoDup (map Contact.id (delete_row pk rows)).
Proof.
  unfold delete_row. intros Hkey.
  induction rows as [|r rows IH]; simpl; [constructor|].
  simpl in Hkey. apply NoDup_cons_iff in Hkey as [Hnew Hkey].
  destruct (negb (Contact.id r =? pk)); simpl; [|now apply IH].
  apply NoDup_cons; [|now apply IH].
  intros Hin. apply Hnew. apply in_map_iff in Hin as (r' & Hid & Hin).
  apply filter_In in Hin as [Hin _]. rewrite <- Hid. now apply in_map.
Qed.

Lemma delete_row_keeps_fresh pk rows bound :
  Forall (fun c => Contact.id c < bound) rows ->
  Forall (fun c => Contact.id c < bound) (delete_row pk rows).
Proof.
  unfold delete_row. rewrite !Forall_forall. intros H r Hr.
  apply filter_In in Hr as [Hr _]. now apply H.
Qed.

Lemma map_id_update_row pk row rows :
  Contact.id row = pk ->
  map Contact.id (update_row pk row rows) = map Contact.id rows.
Proof.
  intros Hid. unfold update_row. rewrite map_map. apply map_ext_in. intros r _.
  destruct (Contact.id r =? pk) eqn:E; [|reflexivity].
  apply Z.eqb_eq in E. congruence.
Qed.

Lemma protected_cases (A : Type) SECRET sign now authorization
      (handler : UserDB.t -> M A) db :
  run (protected SECRET sign now authorization handler) db = (Raise Unauthorized, db) \/
  exists user,
    In user (users db) /\
    run (protected SECRET sign now authorization handler) db = run (handler user) db.
Proof.
  destruct authorization as [token|]; [|now left].
  destruct (read_token sign (get_jwt_strategy SECRET) now token (users db))
    as [user|] eqn:E.
  - right. exists user. split; [|now apply protected_authorized].
    now apply read_token_In in E.
  - left. now apply protected_unauthorized.
Qed.

Lemma endpoint_state (A : Type) success (encode : A -> json) (m : M A) db :
  snd (endpoint success encode m db) = snd (run m db).
Proof. unfold endpoint. now destruct (run m db). Qed.

Lemma read_contacts_state skip limit user db :
  snd (run (read_contacts skip limit user) db) = db.
Proof.
  unfold run, read_contacts, bind, Session.all.
  now destruct (Query.limit _ _ _) as [l|e].
Qed.

Lemma read_contact_state contact_id user db :
  snd (run (read_contact contact_id user) db) = db.
Proof.
  unfold run, read_contact, bind, Session.first.
  destruct (Query.filter _ _ _) as [l|e]; [|reflexivity].
  now destruct (hd_error l).
Qed.

Lemma create_contact_state fields user db :
  snd (run (create_contact fields user) db) = db \/
  (existsb (fun r => Contact.id r =? contacts_seq db) (contacts db) = false /\
   snd (run (create_contact fields user) db)
   = mkDb (users db) (users_seq db)
          (contacts db ++ [created (contacts_seq db) fields user])
          (contacts_seq db + 1)).
Proof.
  destruct (existsb (fun r => Contact.id r =? contacts_seq db) (contacts db)) eqn:Hpk.
  - left. unfold run, create_contact, bind, Session.add, insert_contact. simpl working.
    rewrite init_of_payload. simpl result_bind. now rewrite Hpk.
  - destruct (existsb (fun u => UserDB.id u =? UserDB.id user) (users db)) eqn:Hfk.
    + right. split; [reflexivity|].
      now rewrite (create_contact_run fields user db Hpk Hfk).
    + left. unfold run, create_contact, bind, Session.add, insert_contact.
      simpl working. rewrite init_of_payload. simpl result_bind. rewrite Hpk.
      simpl Contact.owner_id. now rewrite Hfk.
Qed.

Lemma update_contact_state contact_id fields user db :
  snd (run (update_contact contact_id fields user) db) = db \/
  exists c,
    In c (contacts db) /\
    snd (run (update_contact contact_id fields user) db)
    = set_contacts db (update_row (Contact.id c) (replaced c fields) (contacts db)).
Proof.
  destruct (hd_error (filter (owned_with_id contact_id user) (contacts db))) as [c|] eqn:E.
  - right. exists c.
    destruct (hd_error_filter_some _ _ _ _ E) as (before & after & Hrows & _).
    assert (Hin : In c (contacts db)) by (rewrite Hrows; apply in_elt).
    split; [exact Hin|]. unfold run.
    rewrite (update_contact_found contact_id fields user c); [reflexivity| |exact Hin].
    unfold Session.first, Query.filter, Session.query_Contact. simpl. now rewrite E.
  - left. unfold run, update_contact, bind, Session.first, Query.filter,
      Session.query_Contact. simpl. now rewrite E.
Qed.

Lemma delete_contact_state contact_id user db :
  snd (run (delete_contact contact_id user) db) = db \/
  exists pk,
    snd (run (delete_contact contact_id user) db)
    = set_contacts db (delete_row pk (contacts db)).
Proof.
  destruct (hd_error (filter (owned_with_id contact_id user) (contacts db))) as [c|] eqn:E.
  - right. exists (Contact.id c). unfold run.
    rewrite (delete_contact_found contact_id user c); [reflexivity|].
    unfold Session.first, Query.filter, Session.query_Contact. simpl. now rewrite E.
  - left. unfold run, delete_contact, bind, Session.first, Query.filter,
      Session.query_Contact. simpl. now rewrite E.
Qed.

Lemma login_state SECRET password_helper_verify sign now username password db :
  snd (run (login SECRET password_helper_verify sign now username password) db) = db.
Proof.
  unfold run, login. simpl.
  destruct (find _ (users db)) as [user|]; [|reflexivity].
  now destruct (password_helper_verify _ _).
Qed.

Lemma upload_avatar_state cloudinary_uploader_upload user_id file user db :
  snd (run (upload_avatar cloudinary_uploader_upload user_id file user) db) = db.
Proof.
  unfold run, upload_avatar.
  destruct (cloudinary_uploader_upload file) as [result|]; [|reflexivity].
  destruct (lookup "url" result) as [v|]; [|reflexivity].
  now destruct (as_nullable_string v).
Qed.

(** ** The theorems at sample requests *)

Lemma sample_primary_key : contacts_primary_key Sample.db.
Proof.
  unfold contacts_primary_key. simpl.
  repeat constructor; simpl; intuition discriminate.
Defined.

Lemma sample_sequence_fresh : contacts_sequence_fresh Sample.db.
Proof.
  unfold contacts_sequence_fresh. simpl. repeat constructor.
Defined.

(** Bob asks for Ada, a contact of Alice, and for a contact nobody has. *)
Lemma foreign_or_missing_contact_is_not_found_witness :
  run (read_contact 1 Sample.bob) Sample.db
  = (Raise (HTTPException 404 "Contact not found"), Sample.db) /\
  run (update_contact 1 Sample.afternoon Sample.bob) Sample.db
  = (Raise (HTTPException 404 "Contact not found"), Sample.db) /\
  run (delete_contact 1 Sample.bob) Sample.db
  = (Raise (HTTPException 404 "Contact not found"), Sample.db) /\
  run (read_contact 7 Sample.bob) Sample.db
  = (Raise (HTTPException 404 "Contact not found"), Sample.db).
Proof.
  destruct (foreign_or_missing_contact_is_not_found Sample.db Sample.bob 1
              Sample.afternoon) as (Hread & Hupdate & Hdelete & _).
  - unfold int64. lia.
  - intros c [<-|[<-|[]]] Hid; simpl in *; lia.
  - destruct (foreign_or_missing_contact_is_not_found Sample.db Sample.bob 7
                Sample.afternoon) as (Hmissing & _).
    + unfold int64. lia.
    + intros c [<-|[<-|[]]] Hid; simpl in *; lia.
    + repeat split; assumption.
Defined.

(** Carol, who has no contacts, creates fifteen and asks for the second
    page of ten. *)
Lemma read_contacts_page_witness :
  exists rows db',
    create_contacts Sample.fifteen Sample.carol Sample.db = (Ok rows, db') /\
    rows = created_from 3 Sample.fifteen Sample.carol /\
    run (read_contacts (Some 10) (Some 10) Sample.carol) db' = (Ok (skipn 10 rows), db') /\
    List.length (skipn 10 rows) = 5%nat.
Proof.
  destruct (read_contacts_page Sample.db Sample.carol 10 10 Sample.fifteen)
    as (_ & _ & _ & _ & Hfifteen); [lia|lia|].
  apply Hfifteen.
  - exact sample_sequence_fresh.
  - simpl. auto.
  - reflexivity.
  - reflexivity.
Defined.

(** Alice replaces Ada by a payload with a time of day. *)
Lemma update_contact_replaces_fields_witness :
  exists c',
    run (update_contact 1 Sample.afternoon Sample.alice) Sample.db
    = (Ok c', set_contacts Sample.db [c'; Sample.grace]) /\
    Contact.last_name c' = "King" /\
    Contact.birthday c' = mkdate 1815 12 10.
Proof.
  destruct (update_contact_replaces_fields Sample.db Sample.alice Sample.ada
              Sample.afternoon [] [Sample.grace] eq_refl sample_primary_key eq_refl)
    as (c' & Hrun & _ & Hlast & _ & _ & Hbirthday & _).
  exists c'. repeat split; assumption.
Defined.

(** Alice deletes Ada; her attempt on an id nobody has finds nothing. *)
Lemma delete_contact_removes_and_returns_witness :
  fst (run (delete_contact 1 Sample.alice) Sample.db) = Ok Sample.ada /\
  contacts (snd (run (delete_contact 1 Sample.alice) Sample.db)) = [Sample.grace] /\
  run (delete_contact 7 Sample.alice) Sample.db
  = (Raise (HTTPException 404 "Contact not found"), Sample.db).
Proof.
  destruct (delete_contact_removes_and_returns Sample.db Sample.alice Sample.ada []
              [Sample.grace] 7 sample_primary_key) as [Howned Hmissing].
  destruct (Howned eq_refl eq_refl) as (Hreturned & Hrows & _).
  destruct Hmissing as [Hrun _].
  - unfold int64. lia.
  - intros r [<-|[<-|[]]] Hid; simpl in *; lia.
  - repeat split; assumption.
Defined.

(** Alice uploads an avatar under a path that names user 7. *)
Lemma upload_avatar_is_not_persisted_witness :
  run (upload_avatar Sample.upload 7 [] Sample.alice) Sample.db
  = (Ok [("avatar_url", VStr "http://res.example.com/avatar.png")], Sample.db) /\
  exists in_memory,
    find (fun u => UserDB.id u =? 1)
         (users (working (snd (upload_avatar Sample.upload 7 [] Sample.alice
                                 (mkSession Sample.db Sample.db)))))
    = Some in_memory /\
    UserDB.avatar in_memory = Some "http://res.example.com/avatar.png".
Proof.
  destruct (upload_avatar_is_not_persisted Sample.upload Sample.db Sample.alice 7 []
              [("public_id", VStr "avatar"); ("url", VStr "http://res.example.com/avatar.png")]
              "http://res.example.com/avatar.png")
    as (_ & (in_memory & Hfind & Havatar & _) & _ & Hrun).
  - simpl. auto.
  - reflexivity.
  - reflexivity.
  - split; [exact Hrun|]. exists in_memory. now split.
Defined.

(** Alice replaces Ada: Ada keeps her id and her owner, Grace is
    untouched. *)
Lemma update_contact_keeps_id_and_owner_witness :
  let outcome := run (update_contact 1 Sample.afternoon Sample.alice) Sample.db in
  users (snd outcome) = users Sample.db /\
  users_seq (snd outcome) = 4 /\
  contacts_seq (snd outcome) = 3 /\
  Forall2 (fun old new =>
             Contact.id new = Contact.id old /\
             Contact.owner_id new = Contact.owner_id old /\
             (new = old \/
              (owned_with_id 1 Sample.alice old = true /\
               new = replaced old Sample.afternoon)))
          [Sample.ada; Sample.grace] (contacts (snd outcome)) /\
  (forall c', fst outcome = Ok c' ->
              Contact.id c' = 1 /\ Contact.owner_id c' = UserDB.id Sample.alice).
Proof.
  exact (update_contact_keeps_id_and_owner Sample.db Sample.alice 1 Sample.afternoon
           sample_primary_key).
Defined.

(** The list route, asked by Alice. *)
Lemma contact_responses_carry_no_id_witness :
  has_key "id"
    (body (fst (Sample.api 2000 (ReadContacts (Some Sample.token_of_alice) None None)
                  Sample.db))) = false.
Proof.
  destruct (contact_responses_carry_no_id
              Sample.SECRET Sample.hash Sample.verify Sample.sign Sample.upload
              2000 (ReadContacts (Some Sample.token_of_alice) None None) Sample.db eq_refl)
    as (_ & Hid & _).
  exact Hid.
Defined.

(** * Further properties of the handlers *)

(** ** Creating, then reading *)

Lemma from_orm_created pk fields user :
  ContactCreate.from_orm (created pk fields user) = stored_view fields.
Proof. reflexivity. Qed.

Lemma fresh_ids_differ db r :
  contacts_sequence_fresh db -> In r (contacts db) -> Contact.id r <> contacts_seq db.
Proof.
  unfold contacts_sequence_fresh. rewrite Forall_forall. intros H Hr.
  specialize (H r Hr). lia.
Qed.

(** X1.  POST /contacts/ by a stored user, when the sequence is ahead of the
    keys in use: exactly one row is added, at the end of the table, under a
    key no earlier row has; it is owned by the caller whatever the payload
    says, it holds the payload with the birthday reduced to its date, and it
    is the object returned.  The user table is not touched. *)
Theorem create_contact_adds_one_owned_row :
  forall (db : Db) (user : UserDB.t) (fields : ContactCreate.t),
    contacts_sequence_fresh db ->
    In user (users db) ->
    exists c,
      run (create_contact fields user) db
      = (Ok c, mkDb (users db) (users_seq db) (contacts db ++ [c]) (contacts_seq db + 1)) /\
      Contact.owner_id c = UserDB.id user /\
      ContactCreate.from_orm c = stored_view fields /\
      (forall r, In r (contacts db) -> Contact.id r <> Contact.id c).
Proof.
  intros db user fields Hfresh Huser.
  exists (created (contacts_seq db) fields user).
  split; [|split; [reflexivity|split; [reflexivity|]]].
  - apply create_contact_run; [now apply key_unused_of_fresh|now apply user_exists_of_In].
  - intros r Hr. now apply fresh_ids_differ.
Qed.

Lemma NoDup_ids_snoc rows row :
  NoDup (map Contact.id rows) ->
  (forall r, In r rows -> Contact.id r <> Contact.id row) ->
  NoDup (map Contact.id (rows ++ [row])).
Proof.
  intros Hkey Hnew. apply NoDup_map_snoc; [exact Hkey|].
  intros Hin. apply in_map_iff in Hin as (r & Hid & Hr). now apply (Hnew r Hr).
Qed.

(** X2.  A contact just created can be read back: after POST /contacts/ has
    returned [c], GET /contacts/{c.id} by the same user returns [c] and
    changes nothing. *)
Theorem create_then_read_contact :
  forall (db : Db) (user : UserDB.t) (fields : ContactCreate.t),
    contacts_primary_key db ->
    contacts_sequence_fresh db ->
    In user (users db) ->
    exists c db',
      run (create_contact fields user) db = (Ok c, db') /\
      run (read_contact (Contact.id c) user) db' = (Ok c, db').
Proof.
  intros db user fields Hkey Hfresh Huser.
  set (c := created (contacts_seq db) fields user).
  set (db' := mkDb (users db) (users_seq db) (contacts db ++ [c]) (contacts_seq db + 1)).
  exists c, db'. split.
  - apply create_contact_run; [now apply key_unused_of_fresh|now apply user_exists_of_In].
  - unfold run, read_contact, bind.
    rewrite (first_owned_split (contacts db) c [] user (mkSession db' db'));
      [reflexivity|reflexivity| |reflexivity].
    apply NoDup_ids_snoc; [exact Hkey|].
    intros r Hr. now apply fresh_ids_differ.
Qed.

(** X3.  After POST /contacts/ the caller's contacts are the ones the caller
    had, in the same order, followed by the new one: a listing wide enough
    to hold them returns exactly that. *)
Theorem create_then_read_contacts :
  forall (db : Db) (user : UserDB.t) (fields : ContactCreate.t) (limit : Z),
    contacts_sequence_fresh db ->
    In user (users db) ->
    Z.of_nat (List.length (owned_by user db)) < limit ->
    exists c db',
      run (create_contact fields user) db = (Ok c, db') /\
      run (read_contacts None (Some limit) user) db' = (Ok (owned_by user db ++ [c]), db').
Proof.
  intros db user fields limit Hfresh Huser Hlimit.
  set (c := created (contacts_seq db) fields user).
  set (db' := mkDb (users db) (users_seq db) (contacts db ++ [c]) (contacts_seq db + 1)).
  exists c, db'. split.
  - apply create_contact_run; [now apply key_unused_of_fresh|now apply user_exists_of_In].
  - rewrite read_contacts_run by (simpl; lia).
    do 2 f_equal. simpl defaulting. change (Z.to_nat 0) with 0%nat. rewrite skipn_O.
    assert (Howned : owned_by user db' = owned_by user db ++ [c]).
    { unfold owned_by, db'. cbn [contacts]. rewrite filter_app. f_equal.
      simpl. now rewrite Z.eqb_refl. }
    rewrite Howned. apply firstn_all2. rewrite length_app. simpl. lia.
Qed.

(** ** Updating and deleting, then reading *)

Lemma ids_of_replacement before c after fields :
  map Contact.id (before ++ replaced c fields :: after)
  = map Contact.id (before ++ c :: after).
Proof. now rewrite !map_app. Qed.

(** X4.  A replaced contact reads back as replaced: under the primary key,
    after PUT /contacts/{c.id} by the owner of [c], GET /contacts/{c.id} by
    that owner returns the row the PUT returned. *)
Theorem update_then_read_contact :
  forall (db : Db) (user : UserDB.t) (c : Contact.t) (fields : ContactUpdate.t),
    contacts_primary_key db ->
    In c (contacts db) ->
    Contact.owner_id c = UserDB.id user ->
    exists c' db',
      run (update_contact (Contact.id c) fields user) db = (Ok c', db') /\
      run (read_contact (Contact.id c) user) db' = (Ok c', db').
Proof.
  intros db user c fields Hkey Hin Hown.
  apply in_split in Hin as (before & after & Hrows).
  exists (replaced c fields), (set_contacts db (before ++ replaced c fields :: after)).
  split; [now apply update_contact_run|].
  unfold run, read_contact, bind.
  change (Contact.id c) with (Contact.id (replaced c fields)).
  rewrite (first_owned_split before (replaced c fields) after user);
    [reflexivity|reflexivity| |exact Hown].
  rewrite ids_of_replacement. unfold contacts_primary_key in Hkey. now rewrite <- Hrows.
Qed.

Lemma replaced_twice c fields fields' :
  replaced (replaced c fields) fields' = replaced c fields'.
Proof. reflexivity. Qed.

(** X5.  PUT is idempotent, and the last PUT wins: under the primary key, a
    second PUT on the same contact returns what it would have returned
    alone and leaves the state it would have left alone; with the same
    payload it changes nothing. *)
Theorem update_contact_twice :
  forall (db : Db) (user : UserDB.t) (c : Contact.t) (fields fields' : ContactUpdate.t),
    contacts_primary_key db ->
    In c (contacts db) ->
    Contact.owner_id c = UserDB.id user ->
    let after_first := snd (run (update_contact (Contact.id c) fields user) db) in
    run (update_contact (Contact.id c) fields' user) after_first
    = run (update_contact (Contact.id c) fields' user) db /\
    run (update_contact (Contact.id c) fields user) after_first
    = (fst (run (update_contact (Contact.id c) fields user) db), after_first).
Proof.
  intros db user c fields fields' Hkey Hin Hown after_first.
  apply in_split in Hin as (before & after & Hrows).
  assert (Hnext : forall f,
    run (update_contact (Contact.id c) f user)
        (set_contacts db (before ++ replaced c fields :: after))
    = (Ok (replaced c f), set_contacts db (before ++ replaced c f :: after))).
  { intros f.
    pose proof (update_contact_run before (replaced c fields) after f user
                  (set_contacts db (before ++ replaced c fields :: after)) eq_refl) as H.
    rewrite replaced_twice in H. apply H; [|exact Hown].
    unfold contacts_primary_key in *. cbn [contacts set_contacts].
    rewrite ids_of_replacement. now rewrite <- Hrows. }
  subst after_first.
  rewrite (update_contact_run before c after fields user db Hrows Hkey Hown).
  rewrite (update_contact_run before c after fields' user db Hrows Hkey Hown).
  cbn [fst snd]. split; apply Hnext.
Qed.

Lemma delete_leaves_no_such_id before c after :
  NoDup (map Contact.id (before ++ c :: after)) ->
  forall r, In r (before ++ after) -> Contact.id r <> Contact.id c.
Proof.
  intros Hkey r Hr. apply NoDup_ids_split in Hkey as [Hb Ha].
  apply in_app_or in Hr as [Hr|Hr]; auto.
Qed.

(** X6.  A deleted contact is gone for everyone: under the primary key,
    after DELETE /contacts/{c.id} by the owner of [c], GET, PUT and DELETE on
    that id raise 404 for every user, the former owner included, and change
    nothing; so a second DELETE fails. *)
Theorem delete_then_not_found :
  forall (db : Db) (user anyone : UserDB.t) (c : Contact.t) (fields : ContactUpdate.t),
    contacts_primary_key db ->
    In c (contacts db) ->
    Contact.owner_id c = UserDB.id user ->
    exists db',
      run (delete_contact (Contact.id c) user) db = (Ok c, db') /\
      run (read_contact (Contact.id c) anyone) db' = (Raise NotFound, db') /\
      run (update_contact (Contact.id c) fields anyone) db' = (Raise NotFound, db') /\
      run (delete_contact (Contact.id c) anyone) db' = (Raise NotFound, db').
Proof.
  intros db user anyone c fields Hkey Hin Hown.
  apply in_split in Hin as (before & after & Hrows).
  exists (set_contacts db (before ++ after)).
  split; [now apply delete_contact_run|].
  assert (Hgone : forall r,
             In r (contacts (working (mkSession (set_contacts db (before ++ after))
                                                (set_contacts db (before ++ after))))) ->
             Contact.id r = Contact.id c -> Contact.owner_id r <> UserDB.id anyone).
  { intros r Hr Hid. exfalso. revert Hid.
    apply (delete_leaves_no_such_id before c after); [|exact Hr].
    unfold contacts_primary_key in Hkey. now rewrite <- Hrows. }
  repeat split; apply run_not_found.
  - now apply read_contact_not_found.
  - now apply update_contact_not_found.
  - now apply delete_contact_not_found.
Qed.

Lemma owned_by_split user db before c after :
  contacts db = before ++ c :: after ->
  Contact.owner_id c = UserDB.id user ->
  owned_by user db
  = filter (fun r => Contact.owner_id r =? UserDB.id user) before
    ++ c :: filter (fun r => Contact.owner_id r =? UserDB.id user) after.
Proof.
  intros Hrows Hown. unfold owned_by. rewrite Hrows, filter_app. simpl.
  now rewrite Hown, Z.eqb_refl.
Qed.

(** X7.  DELETE takes one contact out of the caller's listing and leaves
    the rest in place: under the primary key, if the table holds [c], owned
    by the caller, between [before] and [after], a listing wide enough to
    hold everything returns, after the DELETE, the caller's contacts of
    [before] followed by those of [after]; before it, it returned the same
    with [c] in between. *)
Theorem delete_then_read_contacts :
  forall (db : Db) (user : UserDB.t) (c : Contact.t) (before after : list Contact.t)
         (limit : Z),
    contacts_primary_key db ->
    contacts db = before ++ c :: after ->
    Contact.owner_id c = UserDB.id user ->
    Z.of_nat (List.length (contacts db)) <= limit ->
    let mine := filter (fun r => Contact.owner_id r =? UserDB.id user) in
    let db' := snd (run (delete_contact (Contact.id c) user) db) in
    run (read_contacts None (Some limit) user) db = (Ok (mine before ++ c :: mine after), db) /\
    run (read_contacts None (Some limit) user) db' = (Ok (mine before ++ mine after), db').
Proof.
  intros db user c before after limit Hkey Hrows Hown Hlimit mine db'.
  assert (Hlen : forall l : list Contact.t,
             (List.length (mine l) <= List.length l)%nat).
  { intros l. apply filter_length_le. }
  assert (Hlimit0 : 0 <= limit) by lia.
  subst db'. rewrite (delete_contact_run before c after user db Hrows Hkey Hown).
  cbn [snd]. rewrite !read_contacts_run by (simpl; lia).
  simpl defaulting. change (Z.to_nat 0) with 0%nat. rewrite !skipn_O.
  rewrite (owned_by_split user db before c after Hrows Hown).
  unfold owned_by. cbn [contacts set_contacts]. rewrite filter_app.
  fold mine.
  rewrite Hrows, length_app in Hlimit. simpl in Hlimit.
  pose proof (Hlen before). pose proof (Hlen after).
  split; do 2 f_equal; apply firstn_all2; rewrite length_app; simpl; lia.
Qed.

(** ** Pages *)

Lemma firstn_add_skipn (l : list Contact.t) (a b : nat) :
  firstn (a + b) l = firstn a l ++ firstn b (skipn a l).
Proof.
  revert l. induction a as [|a IH]; intros l; [reflexivity|].
  destruct l as [|x l]; simpl; [now rewrite firstn_nil|].
  now rewrite IH.
Qed.

Lemma skipn_add_skipn (l : list Contact.t) (a b : nat) :
  skipn (a + b) l = skipn b (skipn a l).
Proof.
  revert l. induction a as [|a IH]; intros l; [reflexivity|].
  destruct l as [|x l]; simpl; [now rewrite skipn_nil|apply IH].
Qed.

(** X8.  Consecutive pages join: for non-negative [skip], [a] and [b], the
    page of [a] contacts at [skip] followed by the page of [b] contacts at
    [skip + a] is the page of [a + b] contacts at [skip]; nothing is lost or
    repeated between two pages. *)
Theorem read_contacts_pages_join :
  forall (db : Db) (user : UserDB.t) (skip a b : Z),
    0 <= skip -> 0 <= a -> 0 <= b ->
    exists first_page second_page,
      run (read_contacts (Some skip) (Some a) user) db = (Ok first_page, db) /\
      run (read_contacts (Some (skip + a)) (Some b) user) db = (Ok second_page, db) /\
      run (read_contacts (Some skip) (Some (a + b)) user) db
      = (Ok (first_page ++ second_page), db).
Proof.
  intros db user skip a b Hskip Ha Hb.
  eexists. eexists.
  rewrite !read_contacts_run by (simpl; lia). simpl defaulting.
  split; [reflexivity|]. split; [reflexivity|].
  do 2 f_equal.
  rewrite !Z2Nat.inj_add by lia.
  now rewrite firstn_add_skipn, skipn_add_skipn.
Qed.

(** X9.  The size of a page: for non-negative [skip] and [limit], a caller
    with [n] contacts gets [min limit (n - skip)] of them, and none when
    [skip] is [n] or more; the request is answered either way. *)
Theorem read_contacts_page_size :
  forall (db : Db) (user : UserDB.t) (skip limit : Z),
    0 <= skip -> 0 <= limit ->
    exists page,
      run (read_contacts (Some skip) (Some limit) user) db = (Ok page, db) /\
      Z.of_nat (List.length page)
      = Z.min limit (Z.max 0 (Z.of_nat (List.length (owned_by user db)) - skip)).
Proof.
  intros db user skip limit Hskip Hlimit.
  eexists. rewrite read_contacts_run by (simpl; lia). simpl defaulting.
  split; [reflexivity|].
  rewrite length_firstn, length_skipn. lia.
Qed.



(** ** One user's writes and another user's contacts *)

Lemma first_owned_found contact_id user rows c :
  hd_error (filter (owned_with_id contact_id user) rows) = Some c ->
  exists before after,
    rows = before ++ c :: after /\
    Contact.id c = contact_id /\ Contact.owner_id c = UserDB.id user.
Proof.
  intros H. destruct (hd_error_filter_some _ _ _ _ H) as (before & after & Hrows & Hp & _).
  exists before, after. split; [exact Hrows|].
  unfold owned_with_id in Hp. apply andb_prop in Hp as [Hid Hown].
  now apply Z.eqb_eq in Hid, Hown.
Qed.

Lemma first_owned_value contact_id user db :
  Session.first (Query.filter (owned_with_id contact_id user) Session.query_Contact)
    (mkSession db db)
  = (Ok (hd_error (filter (owned_with_id contact_id user) (contacts db))), mkSession db db).
Proof. reflexivity. Qed.

(** What PUT and DELETE by [user] on [contact_id] do to the table, under the
    primary key: nothing, or one row of [user] replaced or removed. *)
Lemma update_contact_effect contact_id fields user db :
  contacts_primary_key db ->
  snd (run (update_contact contact_id fields user) db) = db \/
  exists before c after,
    contacts db = before ++ c :: after /\
    Contact.owner_id c = UserDB.id user /\
    snd (run (update_contact contact_id fields user) db)
    = set_contacts db (before ++ replaced c fields :: after).
Proof.
  intros Hkey.
  destruct (hd_error (filter (owned_with_id contact_id user) (contacts db))) as [c|] eqn:E.
  - right. destruct (first_owned_found _ _ _ _ E) as (before & after & Hrows & <- & Hown).
    exists before, c, after. split; [exact Hrows|]. split; [exact Hown|].
    now rewrite (update_contact_run before c after fields user db Hrows Hkey Hown).
  - left. unfold run, update_contact, bind. rewrite first_owned_value. now rewrite E.
Qed.

Lemma delete_contact_effect contact_id user db :
  contacts_primary_key db ->
  snd (run (delete_contact contact_id user) db) = db \/
  exists before c after,
    contacts db = before ++ c :: after /\
    Contact.owner_id c = UserDB.id user /\
    snd (run (delete_contact contact_id user) db) = set_contacts db (before ++ after).
Proof.
  intros Hkey.
  destruct (hd_error (filter (owned_with_id contact_id user) (contacts db))) as [c|] eqn:E.
  - right. destruct (first_owned_found _ _ _ _ E) as (before & after & Hrows & <- & Hown).
    exists before, c, after. split; [exact Hrows|]. split; [exact Hown|].
    now rewrite (delete_contact_run before c after user db Hrows Hkey Hown).
  - left. unfold run, delete_contact, bind. rewrite first_owned_value. now rewrite E.
Qed.

Lemma read_contacts_of_owned skip limit user db db' :
  owned_by user db' = owned_by user db ->
  fst (run (read_contacts skip limit user) db')
  = fst (run (read_contacts skip limit user) db).
Proof.
  intros H.
  unfold run, read_contacts, bind, Session.all, Query.limit, Query.offset,
    Query.filter, Session.query_Contact. simpl.
  fold (owned_by user db'). fold (owned_by user db). rewrite H.
  destruct (defaulting 0 skip <? 0); simpl;
    destruct (defaulting 10 limit <? 0); reflexivity.
Qed.

(** X11.  One user's writes do not reach another user's contacts: under the
    primary key, whatever POST, PUT or DELETE a user sends, with whatever id
    and payload, the contacts of every user with another id are the same
    rows in the same order afterwards, and every listing that other user
    asks for returns what it returned before. *)
Theorem writes_leave_other_users_contacts :
  forall (db : Db) (user other : UserDB.t) (contact_id : Z) (fields : ContactCreate.t),
    contacts_primary_key db ->
    UserDB.id user <> UserDB.id other ->
    let untouched db' :=
      owned_by other db' = owned_by other db /\
      forall skip limit,
        fst (run (read_contacts skip limit other) db')
        = fst (run (read_contacts skip limit other) db) in
    untouched (snd (run (create_contact fields user) db)) /\
    untouched (snd (run (update_contact contact_id fields user) db)) /\
    untouched (snd (run (delete_contact contact_id user) db)).
Proof.
  intros db user other contact_id fields Hkey Hother untouched.
  assert (Hlist : forall db', owned_by other db' = owned_by other db -> untouched db').
  { intros db' H. split; [exact H|]. intros. now apply read_contacts_of_owned. }
  assert (Hno : forall c, Contact.owner_id c = UserDB.id user ->
                          (Contact.owner_id c =? UserDB.id other) = false).
  { intros c ->. now apply Z.eqb_neq. }
  split; [|split]; apply Hlist.
  - destruct (create_contact_state fields user db) as [H|(_ & H)]; rewrite H;
      [reflexivity|].
    unfold owned_by. cbn [contacts]. rewrite filter_app. simpl.
    rewrite (proj2 (Z.eqb_neq _ _) Hother). apply app_nil_r.
  - destruct (update_contact_effect contact_id fields user db Hkey)
      as [H|(before & c & after & Hrows & Hown & H)]; rewrite H; [reflexivity|].
    unfold owned_by. cbn [contacts set_contacts]. rewrite Hrows, !filter_app. simpl.
    now rewrite !(Hno c Hown).
  - destruct (delete_contact_effect contact_id user db Hkey)
      as [H|(before & c & after & Hrows & Hown & H)]; rewrite H; [reflexivity|].
    unfold owned_by. cbn [contacts set_contacts]. rewrite Hrows, !filter_app. simpl.
    now rewrite (Hno c Hown).
Qed.

(** ** What a request can change *)

Lemma endpoint_answer (A : Type) success (encode : A -> json) (m : M A) db :
  fst (endpoint success encode m db) = respond success encode (fst (run m db)).
Proof. unfold endpoint. now destruct (run m db). Qed.

(** Each handler that writes either leaves the stored state alone or
    returns normally. *)
Lemma create_contact_outcome fields user db :
  snd (run (create_contact fields user) db) = db \/
  exists c, fst (run (create_contact fields user) db) = Ok c.
Proof.
  destruct (existsb (fun r => Contact.id r =? contacts_seq db) (contacts db)) eqn:Hpk.
  - left. destruct (create_contact_state fields user db) as [H|(H & _)];
      [exact H|congruence].
  - destruct (existsb (fun u => UserDB.id u =? UserDB.id user) (users db)) eqn:Hfk.
    + right. rewrite (create_contact_run fields user db Hpk Hfk). now eexists.
    + left. unfold run, create_contact, bind, Session.add, insert_contact.
      simpl working. rewrite init_of_payload. simpl result_bind. rewrite Hpk.
      simpl Contact.owner_id. now rewrite Hfk.
Qed.

Lemma update_contact_outcome contact_id fields user db :
  snd (run (update_contact contact_id fields user) db) = db \/
  exists c, fst (run (update_contact contact_id fields user) db) = Ok c.
Proof.
  destruct (hd_error (filter (owned_with_id contact_id user) (contacts db))) as [c|] eqn:E.
  - right. destruct (first_owned_found _ _ _ _ E) as (before & after & Hrows & _).
    unfold run. rewrite (update_contact_found contact_id fields user c).
    + now eexists.
    + rewrite first_owned_value. now rewrite E.
    + cbn [working]. rewrite Hrows. apply in_elt.
  - left. unfold run, update_contact, bind. rewrite first_owned_value. now rewrite E.
Qed.

Lemma delete_contact_outcome contact_id user db :
  snd (run (delete_contact contact_id user) db) = db \/
  exists c, fst (run (delete_contact contact_id user) db) = Ok c.
Proof.
  destruct (hd_error (filter (owned_with_id contact_id user) (contacts db))) as [c|] eqn:E.
  - right. unfold run. rewrite (delete_contact_found contact_id user c).
    + now eexists.
    + rewrite first_owned_value. now rewrite E.
  - left. unfold run, delete_contact, bind. rewrite first_owned_value. now rewrite E.
Qed.

Lemma create_outcome password_helper_hash user safe db :
  snd (run (create password_helper_hash user safe) db) = db.
Proof. reflexivity. Qed.

(** X12.  A request that changed the stored state was answered with
    success: whatever the request, the time and the state, if the state
    after it differs from the state before it, the status of the response
    is 200 or 201.  Every 401, 404, 409 and 500 leaves the database as it
    was. *)
Theorem state_change_means_success :
  forall SECRET password_helper_hash password_helper_verify sign cloudinary_uploader_upload
         (now : Z) (req : request) (db : Db),
    let outcome := app SECRET password_helper_hash password_helper_verify sign
                       cloudinary_uploader_upload now req db in
    snd outcome <> db ->
    status (fst outcome) = 200 \/ status (fst outcome) = 201.
Proof.
  intros SECRET hash verify sign upload now req db outcome Hchanged. subst outcome.
  destruct req; unfold app in *;
    rewrite endpoint_state in Hchanged; rewrite endpoint_answer.
  - now rewrite create_outcome in Hchanged.
  - now rewrite login_state in Hchanged.
  - destruct (protected_cases _ SECRET sign now authorization (fun user => ret user) db)
      as [H|(user & _ & H)]; rewrite H in Hchanged; now contradiction Hchanged.
  - destruct (protected_cases _ SECRET sign now authorization
                (upload_avatar upload user_id file) db) as [H|(user & _ & H)];
      rewrite H in Hchanged; [now contradiction Hchanged|].
    now rewrite upload_avatar_state in Hchanged.
  - destruct (protected_cases _ SECRET sign now authorization
                (create_contact contact) db) as [H|(user & _ & H)];
      rewrite H in *; [now contradiction Hchanged|].
    destruct (create_contact_outcome contact user db) as [H'|[c H']]; [contradiction|].
    rewrite H'. now left.
  - destruct (protected_cases _ SECRET sign now authorization
                (read_contacts skip limit) db) as [H|(user & _ & H)];
      rewrite H in Hchanged; [now contradiction Hchanged|].
    now rewrite read_contacts_state in Hchanged.
  - destruct (protected_cases _ SECRET sign now authorization
                (read_contact contact_id) db) as [H|(user & _ & H)];
      rewrite H in Hchanged; [now contradiction Hchanged|].
    now rewrite read_contact_state in Hchanged.
  - destruct (protected_cases _ SECRET sign now authorization
                (update_contact contact_id contact) db) as [H|(user & _ & H)];
      rewrite H in *; [now contradiction Hchanged|].
    destruct (update_contact_outcome contact_id contact user db) as [H'|[c H']];
      [contradiction|].
    rewrite H'. now left.
  - destruct (protected_cases _ SECRET sign now authorization
                (delete_contact contact_id) db) as [H|(user & _ & H)];
      rewrite H in *; [now contradiction Hchanged|].
    destruct (delete_contact_outcome contact_id user db) as [H'|[c H']];
      [contradiction|].
    rewrite H'. now left.
Qed.

(** X13.  The routes that read do not write, and the contact routes do not
    reach the users: GET /users/me, GET /contacts/ and GET /contacts/{id}
    leave the stored state exactly as it was, whatever the token and the
    parameters; and no route under /contacts/ changes the [user] table or
    its sequence. *)
Theorem reads_and_contact_routes_are_confined :
  forall SECRET password_helper_hash password_helper_verify sign cloudinary_uploader_upload
         (now : Z) (req : request) (db : Db),
    let db' := snd (app SECRET password_helper_hash password_helper_verify sign
                        cloudinary_uploader_upload now req db) in
    (get_route req = true -> db' = db) /\
    (contact_route req = true -> users db' = users db /\ users_seq db' = users_seq db).
Proof.
  intros SECRET hash verify sign upload now req db db'. split.
  - intros Hget. subst db'.
    destruct req; try discriminate Hget; unfold app; rewrite endpoint_state.
    + destruct (protected_cases _ SECRET sign now authorization (fun user => ret user) db)
        as [H|(user & _ & H)]; now rewrite H.
    + destruct (protected_cases _ SECRET sign now authorization
                  (read_contacts skip limit) db) as [H|(user & _ & H)];
        rewrite H; [reflexivity|apply read_contacts_state].
    + destruct (protected_cases _ SECRET sign now authorization
                  (read_contact contact_id) db) as [H|(user & _ & H)];
        rewrite H; [reflexivity|apply read_contact_state].
  - intros Hroute. subst db'.
    destruct req; try discriminate Hroute; unfold app; rewrite endpoint_state.
    + destruct (protected_cases _ SECRET sign now authorization
                  (create_contact contact) db) as [H|(user & _ & H)];
        rewrite H; [now split|].
      destruct (create_contact_state contact user db) as [H'|(_ & H')]; now rewrite H'.
    + destruct (protected_cases _ SECRET sign now authorization
                  (read_contacts skip limit) db) as [H|(user & _ & H)];
        rewrite H; [now split|].
      now rewrite read_contacts_state.
    + destruct (protected_cases _ SECRET sign now authorization
                  (read_contact contact_id) db) as [H|(user & _ & H)];
        rewrite H; [now split|].
      now rewrite read_contact_state.
    + destruct (protected_cases _ SECRET sign now authorization
                  (update_contact contact_id contact) db) as [H|(user & _ & H)];
        rewrite H; [now split|].
      destruct (update_contact_state contact_id contact user db) as [H'|(c & _ & H')];
        now rewrite H'.
    + destruct (protected_cases _ SECRET sign now authorization
                  (delete_contact contact_id) db) as [H|(user & _ & H)];
        rewrite H; [now split|].
      destruct (delete_contact_state contact_id user db) as [H'|(pk & H')];
        now rewrite H'.
Qed.

(** ** The primary key under the writing handlers *)

(** X14.  The three handlers that write keep the primary key of [contacts]:
    if no two stored contacts share an id before [create_contact],
    [update_contact] or [delete_contact] runs, whatever the caller, the id
    and the payload, none do afterwards; a create never takes a key in use
    and an update never changes a key. *)
Theorem writing_handlers_keep_primary_key :
  forall (db : Db) (user : UserDB.t) (contact_id : Z) (fields : ContactCreate.t),
    contacts_primary_key db ->
    contacts_primary_key (snd (run (create_contact fields user) db)) /\
    contacts_primary_key (snd (run (update_contact contact_id fields user) db)) /\
    contacts_primary_key (snd (run (delete_contact contact_id user) db)).
Proof.
  intros db user contact_id fields Hkey. split; [|split].
  - destruct (create_contact_state fields user db) as [H|(Hunused & H)]; rewrite H;
      [exact Hkey|].
    unfold contacts_primary_key in *. cbn [contacts].
    apply NoDup_ids_snoc; [exact Hkey|].
    intros r Hr. rewrite existsb_false_forall in Hunused.
    specialize (Hunused r Hr). now apply Z.eqb_neq in Hunused.
  - destruct (update_contact_state contact_id fields user db) as [H|(c & _ & H)];
      rewrite H; [exact Hkey|].
    unfold contacts_primary_key in *. cbn [contacts set_contacts].
    now rewrite map_id_update_row.
  - destruct (delete_contact_state contact_id user db) as [H|(pk & H)]; rewrite H;
      [exact Hkey|].
    unfold contacts_primary_key in *. cbn [contacts set_contacts].
    now apply delete_row_keeps_key.
Qed.

(** ** The avatar, whatever the image host answers *)

(** X18.  POST /users/{user_id}/avatar/ never changes the stored state,
    whatever the token, the file and the answer of the image host; it
    answers the same and leaves the same state for every [user_id] in the
    path; and when the host's answer has no [url], the caller gets a server
    error, not an avatar. *)
Theorem upload_avatar_edge_cases :
  forall SECRET password_helper_hash password_helper_verify sign cloudinary_uploader_upload
         (now : Z) (authorization : option jwt) (user_id user_id' : Z)
         (file : list byte) (db : Db),
    let api := app SECRET password_helper_hash password_helper_verify sign
                   cloudinary_uploader_upload now in
    snd (api (UploadAvatar authorization user_id file) db) = db /\
    api (UploadAvatar authorization user_id file) db
    = api (UploadAvatar authorization user_id' file) db /\
    (forall token user result,
        authorization = Some token ->
        read_token sign (get_jwt_strategy SECRET) now token (users db) = Some user ->
        cloudinary_uploader_upload file = Ok result ->
        lookup "url" result = None ->
        fst (api (UploadAvatar authorization user_id file) db)
        = mkresponse 500 (JStr "Internal Server Error")).
Proof.
  intros SECRET hash verify sign upload now authorization user_id user_id' file db api.
  subst api. unfold app. split; [|split].
  - rewrite endpoint_state.
    destruct (protected_cases _ SECRET sign now authorization
                (upload_avatar upload user_id file) db) as [H|(user & _ & H)];
      rewrite H; [reflexivity|apply upload_avatar_state].
  - reflexivity.
  - intros token user result -> Htok Hupload Hurl.
    rewrite (endpoint_authorized _ _ _ _ _ _ _ _ _ _ Htok).
    unfold run, upload_avatar. now rewrite Hupload, Hurl.
Qed.

(** ** Reading one contact *)

(** X19.  What [read_contact] returns, exactly: under the primary key it
    returns [c] if and only if [c] is a stored contact with the id asked for
    and owned by the caller; and whatever it returns or raises, the stored
    state is left as it was. *)
Theorem read_contact_returns_exactly_the_owned :
  forall (db : Db) (user : UserDB.t) (contact_id : Z) (c : Contact.t),
    contacts_primary_key db ->
    (fst (run (read_contact contact_id user) db) = Ok c <->
     In c (contacts db) /\ Contact.id c = contact_id /\
     Contact.owner_id c = UserDB.id user) /\
    snd (run (read_contact contact_id user) db) = db.
Proof.
  intros db user contact_id c Hkey.
  split; [|apply read_contact_state].
  split.
  - unfold run, read_contact, bind. rewrite first_owned_value.
    destruct (hd_error (filter (owned_with_id contact_id user) (contacts db)))
      as [c0|] eqn:E; [|discriminate].
    intros [= <-].
    destruct (first_owned_found _ _ _ _ E) as (before & after & Hrows & Hid & Hown).
    split; [rewrite Hrows; apply in_elt|now split].
  - intros (Hin & <- & Hown). apply in_split in Hin as (before & after & Hrows).
    unfold run, read_contact, bind.
    rewrite (first_owned_split before c after user (mkSession db db) Hrows);
      [reflexivity| |exact Hown].
    unfold contacts_primary_key in Hkey. now rewrite <- Hrows.
Qed.

Lemma replaced_by_own_view c :
  replaced c (ContactCreate.from_orm c) = c.
Proof. now destruct c. Qed.

(** X20.  What a contact route returned can be sent back unchanged: under
    the primary key, a PUT on a contact of the caller whose payload is that
    contact as the response model shows it returns the contact and leaves
    the stored state exactly as it was. *)
Theorem update_with_own_view_changes_nothing :
  forall (db : Db) (user : UserDB.t) (c : Contact.t),
    contacts_primary_key db ->
    In c (contacts db) ->
    Contact.owner_id c = UserDB.id user ->
    run (update_contact (Contact.id c) (ContactCreate.from_orm c) user) db = (Ok c, db).
Proof.
  intros db user c Hkey Hin Hown.
  apply in_split in Hin as (before & after & Hrows).
  rewrite (update_contact_run before c after _ user db Hrows Hkey Hown).
  rewrite replaced_by_own_view. f_equal.
  rewrite <- Hrows. now destruct db.
Qed.

(** ** The further properties at sample requests *)

Lemma sample_alice_stored : In Sample.alice (users Sample.db).
Proof. simpl. auto. Defined.

Lemma sample_ada_stored : In Sample.ada (contacts Sample.db).
Proof. simpl. auto. Defined.

(** Alice creates a contact. *)
Lemma create_contact_adds_one_owned_row_witness :
  exists c,
    run (create_contact Sample.afternoon Sample.alice) Sample.db
    = (Ok c, mkDb (users Sample.db) 4 [Sample.ada; Sample.grace; c] 4) /\
    Contact.owner_id c = 1 /\
    ContactCreate.from_orm c = stored_view Sample.afternoon /\
    (forall r, In r (contacts Sample.db) -> Contact.id r <> Contact.id c).
Proof.
  exact (create_contact_adds_one_owned_row Sample.db Sample.alice Sample.afternoon
           sample_sequence_fresh sample_alice_stored).
Defined.

(** Alice creates a contact and reads it back. *)
Lemma create_then_read_contact_witness :
  exists c db',
    run (create_contact Sample.afternoon Sample.alice) Sample.db = (Ok c, db') /\
    run (read_contact (Contact.id c) Sample.alice) db' = (Ok c, db').
Proof.
  exact (create_then_read_contact Sample.db Sample.alice Sample.afternoon
           sample_primary_key sample_sequence_fresh sample_alice_stored).
Defined.

(** Alice creates a contact and lists her contacts. *)
Lemma create_then_read_contacts_witness :
  exists c db',
    run (create_contact Sample.afternoon Sample.alice) Sample.db = (Ok c, db') /\
    run (read_contacts None (Some 10) Sample.alice) db' = (Ok [Sample.ada; c], db').
Proof.
  apply (create_then_read_contacts Sample.db Sample.alice Sample.afternoon 10
           sample_sequence_fresh sample_alice_stored).
  simpl. lia.
Defined.

(** Alice replaces Ada and reads her back. *)
Lemma update_then_read_contact_witness :
  exists c' db',
    run (update_contact 1 Sample.afternoon Sample.alice) Sample.db = (Ok c', db') /\
    run (read_contact 1 Sample.alice) db' = (Ok c', db').
Proof.
  exact (update_then_read_contact Sample.db Sample.alice Sample.ada Sample.afternoon
           sample_primary_key sample_ada_stored eq_refl).
Defined.

(** Alice replaces Ada twice. *)
Lemma update_contact_twice_witness :
  let after_first := snd (run (update_contact 1 Sample.afternoon Sample.alice) Sample.db) in
  run (update_contact 1 Sample.midnight Sample.alice) after_first
  = run (update_contact 1 Sample.midnight Sample.alice) Sample.db /\
  run (update_contact 1 Sample.afternoon Sample.alice) after_first
  = (fst (run (update_contact 1 Sample.afternoon Sample.alice) Sample.db), after_first).
Proof.
  exact (update_contact_twice Sample.db Sample.alice Sample.ada Sample.afternoon
           Sample.midnight sample_primary_key sample_ada_stored eq_refl).
Defined.

(** Alice deletes Ada; then Alice and Bob ask for her. *)
Lemma delete_then_not_found_witness :
  exists db',
    run (delete_contact 1 Sample.alice) Sample.db = (Ok Sample.ada, db') /\
    run (read_contact 1 Sample.bob) db' = (Raise NotFound, db') /\
    run (update_contact 1 Sample.afternoon Sample.bob) db' = (Raise NotFound, db') /\
    run (delete_contact 1 Sample.bob) db' = (Raise NotFound, db').
Proof.
  exact (delete_then_not_found Sample.db Sample.alice Sample.bob Sample.ada
           Sample.afternoon sample_primary_key sample_ada_stored eq_refl).
Defined.

(** Alice lists, deletes Ada, and lists again. *)
Lemma delete_then_read_contacts_witness :
  run (read_contacts None (Some 10) Sample.alice) Sample.db = (Ok [Sample.ada], Sample.db) /\
  run (read_contacts None (Some 10) Sample.alice)
      (snd (run (delete_contact 1 Sample.alice) Sample.db))
  = (Ok [], snd (run (delete_contact 1 Sample.alice) Sample.db)).
Proof.
  apply (delete_then_read_contacts Sample.db Sample.alice Sample.ada [] [Sample.grace] 10
           sample_primary_key eq_refl eq_refl).
  simpl. lia.
Defined.

(** Carol's fifteen contacts, read as pages of four and six from the third
    on. *)
Lemma read_contacts_pages_join_witness :
  let db := snd (create_contacts Sample.fifteen Sample.carol Sample.db) in
  exists first_page second_page,
    run (read_contacts (Some 3) (Some 4) Sample.carol) db = (Ok first_page, db) /\
    run (read_contacts (Some (3 + 4)) (Some 6) Sample.carol) db = (Ok second_page, db) /\
    run (read_contacts (Some 3) (Some (4 + 6)) Sample.carol) db
    = (Ok (first_page ++ second_page), db).
Proof.
  apply read_contacts_pages_join; lia.
Defined.

(** Carol's fifteen contacts: the page of ten at twelve holds three. *)
Lemma read_contacts_page_size_witness :
  let db := snd (create_contacts Sample.fifteen Sample.carol Sample.db) in
  exists page,
    run (read_contacts (Some 12) (Some 10) Sample.carol) db = (Ok page, db) /\
    Z.of_nat (List.length page) = 3.
Proof.
  exact (read_contacts_page_size (snd (create_contacts Sample.fifteen Sample.carol Sample.db))
           Sample.carol 12 10 ltac:(lia) ltac:(lia)).
Defined.


(** Alice creates, replaces and deletes; Bob's contacts stay. *)
Lemma writes_leave_other_users_contacts_witness :
  owned_by Sample.bob (snd (run (create_contact Sample.afternoon Sample.alice) Sample.db))
  = [Sample.grace] /\
  owned_by Sample.bob (snd (run (update_contact 2 Sample.afternoon Sample.alice) Sample.db))
  = [Sample.grace] /\
  owned_by Sample.bob (snd (run (delete_contact 2 Sample.alice) Sample.db))
  = [Sample.grace].
Proof.
  destruct (writes_leave_other_users_contacts Sample.db Sample.alice Sample.bob 2
              Sample.afternoon sample_primary_key)
    as ((Hcreate & _) & (Hupdate & _) & (Hdelete & _)).
  - simpl. lia.
  - repeat split; assumption.
Defined.

(** Alice's POST changes the state and is answered 200. *)
Lemma state_change_means_success_witness :
  status (fst (Sample.api 2000 (CreateContact (Some Sample.token_of_alice) Sample.afternoon)
                 Sample.db)) = 200 \/
  status (fst (Sample.api 2000 (CreateContact (Some Sample.token_of_alice) Sample.afternoon)
                 Sample.db)) = 201.
Proof.
  apply (state_change_means_success Sample.SECRET Sample.hash Sample.verify Sample.sign
           Sample.upload 2000
           (CreateContact (Some Sample.token_of_alice) Sample.afternoon) Sample.db).
  vm_compute. intros H. discriminate H.
Defined.

(** A listing without a token and a DELETE by Alice. *)
Lemma reads_and_contact_routes_are_confined_witness :
  snd (Sample.api 2000 (ReadContacts None None None) Sample.db) = Sample.db /\
  users (snd (Sample.api 2000 (DeleteContact (Some Sample.token_of_alice) 1) Sample.db))
  = users Sample.db.
Proof.
  split.
  - now apply (reads_and_contact_routes_are_confined Sample.SECRET Sample.hash
                 Sample.verify Sample.sign Sample.upload 2000
                 (ReadContacts None None None) Sample.db).
  - now apply (reads_and_contact_routes_are_confined Sample.SECRET Sample.hash
                 Sample.verify Sample.sign Sample.upload 2000
                 (DeleteContact (Some Sample.token_of_alice) 1) Sample.db).
Defined.

(** Alice uploads to a host whose answer has no url. *)
Lemma upload_avatar_edge_cases_witness :
  fst (app Sample.SECRET Sample.hash Sample.verify Sample.sign upload_without_url 2000
           (UploadAvatar (Some Sample.token_of_alice) 7 []) Sample.db)
  = mkresponse 500 (JStr "Internal Server Error").
Proof.
  destruct (upload_avatar_edge_cases Sample.SECRET Sample.hash Sample.verify Sample.sign
              upload_without_url 2000 (Some Sample.token_of_alice) 7 8 [] Sample.db)
    as (_ & _ & Hmissing).
  exact (Hmissing Sample.token_of_alice Sample.alice [("public_id", VStr "avatar")]
           eq_refl eq_refl eq_refl eq_refl).
Defined.

(** Alice reads Ada. *)
Lemma read_contact_returns_exactly_the_owned_witness :
  run (read_contact 1 Sample.alice) Sample.db = (Ok Sample.ada, Sample.db).
Proof.
  destruct (read_contact_returns_exactly_the_owned Sample.db Sample.alice 1 Sample.ada
              sample_primary_key) as [Hiff Hstate].
  assert (Hok : fst (run (read_contact 1 Sample.alice) Sample.db) = Ok Sample.ada).
  { apply Hiff. split; [exact sample_ada_stored|split; reflexivity]. }
  rewrite (surjective_pairing (run (read_contact 1 Sample.alice) Sample.db)).
  now rewrite Hok, Hstate.
Defined.

(** Alice creates, replaces and deletes in the sample state. *)
Lemma writing_handlers_keep_primary_key_witness :
  contacts_primary_key (snd (run (create_contact Sample.afternoon Sample.alice) Sample.db)) /\
  contacts_primary_key (snd (run (update_contact 1 Sample.afternoon Sample.alice) Sample.db)) /\
  contacts_primary_key (snd (run (delete_contact 1 Sample.alice) Sample.db)).
Proof.
  exact (writing_handlers_keep_primary_key Sample.db Sample.alice 1 Sample.afternoon
           sample_primary_key).
Defined.

(** Alice sends Ada back as she got her. *)
Lemma update_with_own_view_changes_nothing_witness :
  run (update_contact 1 (ContactCreate.from_orm Sample.ada) Sample.alice) Sample.db
  = (Ok Sample.ada, Sample.db).
Proof.
  exact (update_with_own_view_changes_nothing Sample.db Sample.alice Sample.ada
           sample_primary_key sample_ada_stored eq_refl).
Defined.
